(** * Kinematics: quaternion attitude tracking

    A shallow embedding of [Kinematics.py] (classes [Quaternion],
    [EulerAngles], [Kinematics] and the helper [_wrap_asin]) and the
    properties of its behaviour.

    Numbers.  Python's [int] and [float] operands are modelled by the real
    numbers [R]: arithmetic is exact, there is no rounding, overflow, signed
    zero, infinity or NaN.  What Python does in addition to arithmetic is
    kept: [/] raises [ZeroDivisionError] on a zero divisor, [math.sqrt] and
    [math.asin] raise [ValueError] outside their domain.

    Effects.  An expression that may raise is a [result]; a method that
    mutates [self] is a function from the object before the call to an
    outcome and the object after it, so that the writes made before an
    exception propagates stay visible, as they do in Python. *)

From Stdlib Require Import ZArith Reals Lra Psatz.
From ExtLib Require Import Structures.Monad.
Import MonadNotation.

Local Open Scope R_scope.
Local Open Scope monad_scope.

(** ** Exceptions and outcomes *)

Inductive exn : Type :=
| ZeroDivisionError
| ValueError.

Definition exn_eqb (a b : exn) : bool :=
  match a, b with
  | ZeroDivisionError, ZeroDivisionError => true
  | ValueError, ValueError => true
  | _, _ => false
  end.

Inductive result (A : Type) : Type :=
| Ok (a : A)
| Raise (e : exn).

Arguments Ok {A} a.
Arguments Raise {A} e.

Definition result_bind {A B : Type} (r : result A) (k : A -> result B) : result B :=
  match r with
  | Ok a => k a
  | Raise e => Raise e
  end.

#[global] Instance Monad_result : Monad result :=
  {| ret := @Ok; bind := @result_bind |}.

(** A method body over a mutable object of type [S]. *)
Definition method (S A : Type) : Type := S -> result A * S.

Definition method_ret {S A : Type} (a : A) : method S A :=
  fun s => (Ok a, s).

Definition method_bind {S A B : Type} (m : method S A) (k : A -> method S B)
  : method S B :=
  fun s =>
    match m s with
    | (Ok a, s') => k a s'
    | (Raise e, s') => (Raise e, s')
    end.

#[global] Instance Monad_method (S : Type) : Monad (method S) :=
  {| ret := @method_ret S; bind := @method_bind S |}.

(** Read [self], overwrite [self], evaluate an expression that may raise. *)
Definition self {S : Type} : method S S :=
  fun s => (Ok s, s).

Definition assign {S : Type} (f : S -> S) : method S unit :=
  fun s => (Ok tt, f s).

Definition eval {S A : Type} (r : result A) : method S A :=
  fun s => (r, s).

(** [try: body except e: handler]; any other exception propagates. *)
Definition try_except {S A : Type} (body : method S A) (e : exn)
           (handler : method S A) : method S A :=
  fun s =>
    match body s with
    | (Ok a, s') => (Ok a, s')
    | (Raise e', s') => if exn_eqb e' e then handler s' else (Raise e', s')
    end.

(** ** Python arithmetic and the [math] module *)

(** [a / b] *)
Definition py_div (a b : R) : result R :=
  if Req_dec_T b 0 then Raise ZeroDivisionError else Ok (a / b).

(** [math.sqrt(x)] *)
Definition math_sqrt (x : R) : result R :=
  if Rlt_dec x 0 then Raise ValueError else Ok (sqrt x).

(** [math.asin(v)] *)
Definition math_asin (v : R) : result R :=
  if Rlt_dec v (-1) then Raise ValueError
  else if Rlt_dec 1 v then Raise ValueError
  else Ok (asin v).

(** [math.atan2(y, x)]: the angle of the point [(x, y)], in [(-PI, PI]].
    The library function also returns [- PI], for a numerator that is the
    negative zero of the floats; [R] has one zero only. *)
Definition math_atan2 (y x : R) : R :=
  if Rlt_dec 0 x then atan (y / x)
  else if Rlt_dec x 0 then
    if Rle_dec 0 y then atan (y / x) + PI else atan (y / x) - PI
  else
    if Rlt_dec 0 y then PI / 2
    else if Rlt_dec y 0 then - (PI / 2)
    else 0.

Definition math_pi : R := PI.

(** ** [_wrap_asin] *)

Definition _wrap_asin (v : R) : result R :=
  if Rge_dec v 1 then py_div math_pi 2
  else if Rle_dec v (-1) then
         h <- py_div math_pi 2 ;; Ok (- h)
  else math_asin v.

(** ** [class EulerAngles] *)

Record EulerAngles : Type := mkEulerAngles {
  yaw : R;
  pitch : R;
  roll : R
}.

(** [EulerAngles.__init__]: the loop over [[yaw, pitch, roll]] rebinds its
    own variable only, the three arguments are stored as given. *)
Definition EulerAngles_new (yaw pitch roll : R) : EulerAngles :=
  mkEulerAngles yaw pitch roll.

Definition getYaw (e : EulerAngles) : R := yaw e.
Definition getPitch (e : EulerAngles) : R := pitch e.
Definition getRoll (e : EulerAngles) : R := roll e.
Definition YPRvector (e : EulerAngles) : R * R * R := (yaw e, pitch e, roll e).

(** ** [class Quaternion] *)

Record Quaternion : Type := mkQuaternion {
  qw : R;
  qx : R;
  qy : R;
  qz : R
}.

Definition set_w (v : R) (q : Quaternion) : Quaternion :=
  mkQuaternion v (qx q) (qy q) (qz q).
Definition set_x (v : R) (q : Quaternion) : Quaternion :=
  mkQuaternion (qw q) v (qy q) (qz q).
Definition set_y (v : R) (q : Quaternion) : Quaternion :=
  mkQuaternion (qw q) (qx q) v (qz q).
Definition set_z (v : R) (q : Quaternion) : Quaternion :=
  mkQuaternion (qw q) (qx q) (qy q) v.

(** [Quaternion.magnitude] *)
Definition magnitude (q : Quaternion) : result R :=
  math_sqrt (qw q ^ 2 + qx q ^ 2 + qy q ^ 2 + qz q ^ 2).

(** [Quaternion.normalise]: four in-place divisions, one after the other,
    under a handler for [ZeroDivisionError]. *)
Definition normalise : method Quaternion unit :=
  try_except
    (q0 <- self ;;
     m <- eval (magnitude q0) ;;
     q1 <- self ;; w' <- eval (py_div (qw q1) m) ;; assign (set_w w') ;;
     q2 <- self ;; x' <- eval (py_div (qx q2) m) ;; assign (set_x x') ;;
     q3 <- self ;; y' <- eval (py_div (qy q3) m) ;; assign (set_y y') ;;
     q4 <- self ;; z' <- eval (py_div (qz q4) m) ;; assign (set_z z'))
    ZeroDivisionError
    (ret tt).

(** [Quaternion.__init__]: the loop over [[w, x, y, z]] rebinds its own
    variable only; the four fields are stored as given, then normalised. *)
Definition Quaternion_init (w x y z : R) : method Quaternion unit :=
  assign (set_w w) ;;
  assign (set_x x) ;;
  assign (set_y y) ;;
  assign (set_z z) ;;
  normalise.

(** The expression [Quaternion(w, x, y, z)]: a new object, initialised.
    All four fields are written before the first read, so the contents of
    the object before [__init__] runs are immaterial. *)
Definition Quaternion_new (w x y z : R) : result Quaternion :=
  match Quaternion_init w x y z (mkQuaternion 0 0 0 0) with
  | (Ok _, q) => Ok q
  | (Raise e, _) => Raise e
  end.

(** [Quaternion.conjugate] *)
Definition conjugate (q : Quaternion) : result Quaternion :=
  Quaternion_new (qw q) (- qx q) (- qy q) (- qz q).

(** [Quaternion.productOf] *)
Definition productOf (p q : Quaternion) : result Quaternion :=
  Quaternion_new
    (qw p * qw q - qx p * qx q - qy p * qy q - qz p * qz q)
    (qw p * qx q + qx p * qw q + qy p * qz q - qz p * qy q)
    (qw p * qy q - qx p * qz q + qy p * qw q + qz p * qx q)
    (qw p * qz q + qx p * qy q - qy p * qx q + qz p * qw q).

(** [Quaternion.difference] *)
Definition difference (p q : Quaternion) : result Quaternion :=
  c <- conjugate p ;;
  productOf q c.

(** [Quaternion.toEuler]: yaw, then roll, then pitch. *)
Definition toEuler (q : Quaternion) : result EulerAngles :=
  yr <- py_div (math_atan2 (2 * (qw q * qz q + qx q * qy q))
                           (1 - 2 * (qy q ^ 2 + qz q ^ 2))) math_pi ;;
  let yaw := yr * 180 in
  rr <- py_div (math_atan2 (2 * (qw q * qx q + qy q * qz q))
                           (1 - 2 * (qx q ^ 2 + qy q ^ 2))) math_pi ;;
  let roll := rr * 180 in
  a <- _wrap_asin (2 * (qw q * qy q - qz q * qx q)) ;;
  pr <- py_div a math_pi ;;
  let pitch := pr * 180 in
  Ok (EulerAngles_new yaw pitch roll).

(** [EulerAngles.toQuaternion]: the angle of each axis is converted to
    radians and halved once for the cosine and once for the sine. *)
Definition half_angle (deg : R) : result R :=
  d <- py_div (deg * math_pi) 180 ;;
  Ok (d * 0.5).

Definition toQuaternion (e : EulerAngles) : result Quaternion :=
  cosRoll <- (h <- half_angle (roll e) ;; Ok (cos h)) ;;
  sinRoll <- (h <- half_angle (roll e) ;; Ok (sin h)) ;;
  cosPitch <- (h <- half_angle (pitch e) ;; Ok (cos h)) ;;
  sinPitch <- (h <- half_angle (pitch e) ;; Ok (sin h)) ;;
  cosYaw <- (h <- half_angle (yaw e) ;; Ok (cos h)) ;;
  sinYaw <- (h <- half_angle (yaw e) ;; Ok (sin h)) ;;
  let w := cosRoll * cosPitch * cosYaw + sinRoll * sinPitch * sinYaw in
  let x := sinRoll * cosPitch * cosYaw - cosRoll * sinPitch * sinYaw in
  let y := cosRoll * sinPitch * cosYaw + sinRoll * cosPitch * sinYaw in
  let z := cosRoll * cosPitch * sinYaw - sinRoll * sinPitch * cosYaw in
  Quaternion_new w x y z.

(** ** [class Kinematics(Quaternion)] *)

(** A quaternion object as the tracker refers to it.  [Kinematics] extends
    [Quaternion] and stores references: [__init__] sets [self.target = self]
    and [setTarget] calls [self.update(self, q)], so a reference may be to
    the tracker itself, whose fields [update] overwrites.  Every other
    quaternion object is written by its own [__init__] only, and is held by
    its components. *)
Inductive QRef : Type :=
| Self
| Other (q : Quaternion).

Record Kinematics : Type := mkKinematics {
  base : Quaternion;          (* the inherited fields w, x, y, z *)
  target : QRef;
  time : R;
  degSecYPR : R * R * R;
  error : Quaternion
}.

Definition set_base (f : Quaternion -> Quaternion) (k : Kinematics) : Kinematics :=
  mkKinematics (f (base k)) (target k) (time k) (degSecYPR k) (error k).
Definition set_target (t : QRef) (k : Kinematics) : Kinematics :=
  mkKinematics (base k) t (time k) (degSecYPR k) (error k).
Definition set_time (t : R) (k : Kinematics) : Kinematics :=
  mkKinematics (base k) (target k) t (degSecYPR k) (error k).
Definition set_degSecYPR (v : R * R * R) (k : Kinematics) : Kinematics :=
  mkKinematics (base k) (target k) (time k) v (error k).
Definition set_error (e : Quaternion) (k : Kinematics) : Kinematics :=
  mkKinematics (base k) (target k) (time k) (degSecYPR k) e.

(** The components a reference denotes, read in the tracker [k]. *)
Definition deref (k : Kinematics) (r : QRef) : Quaternion :=
  match r with
  | Self => base k
  | Other q => q
  end.

(** An inherited [Quaternion] method run on the tracker's own fields. *)
Definition inherited {A : Type} (m : method Quaternion A) : method Kinematics A :=
  fun k =>
    match m (base k) with
    | (r, q') => (r, set_base (fun _ => q') k)
    end.

(** [Kinematics.update]; [now] is the value [time.time()] returns. *)
Definition update (now : R) (attitude tgt : QRef) : method Kinematics unit :=
  k0 <- self ;;
  let prevTime := time k0 in
  assign (set_time now) ;;
  k1 <- self ;;
  let dt := time k1 - prevTime in
  prev <- eval (Quaternion_new (qw (base k1)) (qx (base k1))
                               (qy (base k1)) (qz (base k1))) ;;
  ka <- self ;; assign (set_base (set_w (qw (deref ka attitude)))) ;;
  kb <- self ;; assign (set_base (set_x (qx (deref kb attitude)))) ;;
  kc <- self ;; assign (set_base (set_y (qy (deref kc attitude)))) ;;
  kd <- self ;; assign (set_base (set_z (qz (deref kd attitude)))) ;;
  assign (set_target tgt) ;;
  k2 <- self ;;
  d <- eval (difference prev (base k2)) ;;
  delta <- eval (toEuler d) ;;
  vy <- eval (py_div (getYaw delta) dt) ;;
  vp <- eval (py_div (getPitch delta) dt) ;;
  vr <- eval (py_div (getRoll delta) dt) ;;
  assign (set_degSecYPR (vy, vp, vr)) ;;
  k3 <- self ;;
  e <- eval (difference (base k3) (deref k3 (target k3))) ;;
  assign (set_error e).

(** [Kinematics.__init__] *)
Definition Kinematics_init (now w x y z : R) : method Kinematics unit :=
  inherited (Quaternion_init w x y z) ;;
  assign (set_target Self) ;;
  assign (set_time now) ;;
  assign (set_degSecYPR (0, 0, 0)) ;;
  k <- self ;;
  e <- eval (difference (base k) (deref k (target k))) ;;
  assign (set_error e).

(** The expression [Kinematics(w, x, y, z)].  Every field is written before
    it is read, so the contents of the object before [__init__] runs are
    immaterial. *)
Definition Kinematics_new (now w x y z : R) : result Kinematics :=
  let blank := mkQuaternion 0 0 0 0 in
  match Kinematics_init now w x y z
          (mkKinematics blank Self 0 (0, 0, 0) blank) with
  | (Ok _, k) => Ok k
  | (Raise e, _) => Raise e
  end.

(** [Kinematics.setTarget] *)
Definition setTarget (now : R) (q : QRef) : method Kinematics unit :=
  assign (set_target q) ;;
  update now Self q.

(** [Kinematics.rotateTarget] *)
Definition rotateTarget (now : R) (q : QRef) : method Kinematics unit :=
  k <- self ;;
  t <- eval (productOf (deref k (target k)) (deref k q)) ;;
  assign (set_target (Other t)) ;;
  k' <- self ;;
  update now Self (target k').

Definition getAngularVelocities (k : Kinematics) : R * R * R := degSecYPR k.
Definition getErrorQuaternion (k : Kinematics) : Quaternion := error k.
Definition getErrorEuler (k : Kinematics) : result EulerAngles := toEuler (error k).

(** ** Closed forms of the operations

    What each operation of the model computes, as plain functions; the
    lemmas of the second part relate them to the model. *)

(** The sum of squares that [magnitude] takes the root of. *)
Definition norm2 (q : Quaternion) : R :=
  qw q ^ 2 + qx q ^ 2 + qy q ^ 2 + qz q ^ 2.

(** What [normalise] leaves in the object. *)
Definition scaled (q : Quaternion) (m : R) : Quaternion :=
  mkQuaternion (qw q / m) (qx q / m) (qy q / m) (qz q / m).

Definition unit_of (q : Quaternion) : Quaternion :=
  if Req_dec_T (sqrt (norm2 q)) 0 then q else scaled q (sqrt (norm2 q)).

(** The components [conjugate] and [productOf] hand to the constructor. *)
Definition conj_parts (q : Quaternion) : Quaternion :=
  mkQuaternion (qw q) (- qx q) (- qy q) (- qz q).

Definition hamilton (p q : Quaternion) : Quaternion :=
  mkQuaternion
    (qw p * qw q - qx p * qx q - qy p * qy q - qz p * qz q)
    (qw p * qx q + qx p * qw q + qy p * qz q - qz p * qy q)
    (qw p * qy q - qx p * qz q + qy p * qw q + qz p * qx q)
    (qw p * qz q + qx p * qy q - qy p * qx q + qz p * qw q).

(** The components [toQuaternion] hands to the constructor, from half the
    roll [a], half the pitch [b] and half the yaw [c], in radians. *)
Definition radians_half (deg : R) : R := deg * PI / 180 * 0.5.

Definition half_w (a b c : R) : R := cos a * cos b * cos c + sin a * sin b * sin c.
Definition half_x (a b c : R) : R := sin a * cos b * cos c - cos a * sin b * sin c.
Definition half_y (a b c : R) : R := cos a * sin b * cos c + sin a * cos b * sin c.
Definition half_z (a b c : R) : R := cos a * cos b * sin c - sin a * sin b * cos c.

Definition euler_parts (e : EulerAngles) : Quaternion :=
  let a := radians_half (roll e) in
  let b := radians_half (pitch e) in
  let c := radians_half (yaw e) in
  mkQuaternion (half_w a b c) (half_x a b c) (half_y a b c) (half_z a b c).

(** The value of [_wrap_asin] and the angles of [toEuler]. *)
Definition wrap_asin_val (v : R) : R :=
  if Rge_dec v 1 then PI / 2
  else if Rle_dec v (-1) then - (PI / 2)
  else asin v.

Definition euler_of (q : Quaternion) : EulerAngles :=
  mkEulerAngles
    (math_atan2 (2 * (qw q * qz q + qx q * qy q))
                (1 - 2 * (qy q ^ 2 + qz q ^ 2)) / PI * 180)
    (wrap_asin_val (2 * (qw q * qy q - qz q * qx q)) / PI * 180)
    (math_atan2 (2 * (qw q * qx q + qy q * qz q))
                (1 - 2 * (qx q ^ 2 + qy q ^ 2)) / PI * 180).

(** The attitude change [update] measures, from the old fields to the new. *)
Definition delta_of (old new : Quaternion) : EulerAngles :=
  euler_of (unit_of (hamilton new (unit_of (conj_parts (unit_of old))))).

(** The error [update] caches, from the new fields to the new target. *)
Definition error_of (cur tgt : Quaternion) : Quaternion :=
  unit_of (hamilton tgt (unit_of (conj_parts cur))).

(** The tracker when the velocity division is reached. *)
Definition adopted (now : R) (attitude tgt : QRef) (k : Kinematics) : Kinematics :=
  mkKinematics (deref k attitude) tgt now (degSecYPR k) (error k).

(** The tracker that [Kinematics()] builds at clock reading 0. *)
Definition identity : Quaternion := mkQuaternion 1 0 0 0.

Definition tracker0 : Kinematics :=
  mkKinematics identity Self 0 (0, 0, 0) identity.

(** A quaternion with its four components multiplied by [s], and negated. *)
Definition qscale (s : R) (q : Quaternion) : Quaternion :=
  mkQuaternion (qw q * s) (qx q * s) (qy q * s) (qz q * s).

Definition qneg (q : Quaternion) : Quaternion :=
  mkQuaternion (- qw q) (- qx q) (- qy q) (- qz q).

Definition zero_quaternion : Quaternion := mkQuaternion 0 0 0 0.

(** [EulerAngles(y, p, r).toQuaternion().toEuler()] *)
Definition there_and_back (y p r : R) : result EulerAngles :=
  q <- toQuaternion (EulerAngles_new y p r) ;; toEuler q.

(** Sizes of fields.  The model squares in [R]; in the code [c**2] raises
    [OverflowError] when the square of [c] exceeds the largest float, and
    gives 0.0 when it is below the smallest.  A field [fits] when its square
    cannot overflow, and is [ordinary] when, besides, it is zero or its
    square cannot underflow. *)
Definition fits (c : R) : Prop := Rabs c <= 1e150.

Definition ordinary (c : R) : Prop := c = 0 \/ 1e-150 <= Rabs c <= 1e150.

Definition fields_fit (q : Quaternion) : Prop :=
  fits (qw q) /\ fits (qx q) /\ fits (qy q) /\ fits (qz q).

Definition fields_ordinary (q : Quaternion) : Prop :=
  ordinary (qw q) /\ ordinary (qx q) /\ ordinary (qy q) /\ ordinary (qz q).

(** * Properties *)

(** ** Running the model *)

Ltac run :=
  cbv beta iota zeta delta
      [bind ret Monad_result Monad_method result_bind method_bind method_ret
       self assign eval try_except exn_eqb inherited];
  cbn [set_w set_x set_y set_z qw qx qy qz
       set_base set_target set_time set_degSecYPR set_error
       base target time degSecYPR error deref
       EulerAngles_new getYaw getPitch getRoll yaw pitch roll].

Lemma py_div_nonzero (a b : R) : b <> 0 -> py_div a b = Ok (a / b).
Proof.
  intros Hb. unfold py_div. destruct (Req_dec_T b 0) as [E | _].
  - contradiction.
  - reflexivity.
Qed.

Lemma py_div_zero (a : R) : py_div a 0 = Raise ZeroDivisionError.
Proof.
  unfold py_div. destruct (Req_dec_T 0 0) as [_ | N].
  - reflexivity.
  - exfalso. apply N. reflexivity.
Qed.

Lemma py_div_pi (a : R) : py_div a math_pi = Ok (a / PI).
Proof. apply py_div_nonzero. exact PI_neq0. Qed.

Lemma norm2_nonneg (q : Quaternion) : 0 <= norm2 q.
Proof. unfold norm2. nra. Qed.

Lemma magnitude_total (q : Quaternion) : magnitude q = Ok (sqrt (norm2 q)).
Proof.
  unfold magnitude, math_sqrt. fold (norm2 q).
  destruct (Rlt_dec (norm2 q) 0) as [H | _].
  - pose proof (norm2_nonneg q). lra.
  - reflexivity.
Qed.

Lemma sqrt_norm2_zero (q : Quaternion) : sqrt (norm2 q) = 0 <-> norm2 q = 0.
Proof.
  split.
  - intros H. apply sqrt_eq_0; [apply norm2_nonneg | exact H].
  - intros H. rewrite H. apply sqrt_0.
Qed.

Lemma normalise_run (q : Quaternion) : normalise q = (Ok tt, unit_of q).
Proof.
  unfold normalise, unit_of. run. rewrite magnitude_total.
  destruct (Req_dec_T (sqrt (norm2 q)) 0) as [E | N].
  - rewrite E. rewrite py_div_zero. run. reflexivity.
  - rewrite !py_div_nonzero by exact N. run. reflexivity.
Qed.

Lemma Quaternion_init_run (w x y z : R) (q0 : Quaternion) :
  Quaternion_init w x y z q0 = (Ok tt, unit_of (mkQuaternion w x y z)).
Proof.
  unfold Quaternion_init. run. apply normalise_run.
Qed.

Lemma Quaternion_new_run (w x y z : R) :
  Quaternion_new w x y z = Ok (unit_of (mkQuaternion w x y z)).
Proof.
  unfold Quaternion_new. rewrite Quaternion_init_run. reflexivity.
Qed.

(** ** Unit quaternions *)

Lemma magnitude_one_norm2 (q : Quaternion) : magnitude q = Ok 1 <-> norm2 q = 1.
Proof.
  rewrite magnitude_total. split.
  - intros H. injection H as H.
    rewrite <- (sqrt_sqrt (norm2 q)) by apply norm2_nonneg.
    rewrite H. ring.
  - intros H. rewrite H, sqrt_1. reflexivity.
Qed.

Lemma magnitude_zero_norm2 (q : Quaternion) : magnitude q = Ok 0 <-> norm2 q = 0.
Proof.
  rewrite magnitude_total. split.
  - intros H. injection H as H. apply sqrt_norm2_zero. exact H.
  - intros H. rewrite H, sqrt_0. reflexivity.
Qed.

Lemma unit_of_zero (q : Quaternion) : norm2 q = 0 -> unit_of q = q.
Proof.
  intros H. unfold unit_of.
  destruct (Req_dec_T (sqrt (norm2 q)) 0) as [_ | N].
  - reflexivity.
  - exfalso. apply N. apply sqrt_norm2_zero. exact H.
Qed.

Lemma unit_of_unit (q : Quaternion) : norm2 q = 1 -> unit_of q = q.
Proof.
  intros H. unfold unit_of, scaled. rewrite H, sqrt_1.
  destruct (Req_dec_T 1 0) as [E | _].
  - reflexivity.
  - destruct q as [w x y z]. cbn [qw qx qy qz]. f_equal; field.
Qed.

Lemma norm2_scaled (q : Quaternion) (m : R) :
  m <> 0 -> norm2 (scaled q m) = norm2 q / (m * m).
Proof.
  intros Hm. unfold norm2, scaled. cbn [qw qx qy qz]. field. exact Hm.
Qed.

Lemma norm2_unit_of (q : Quaternion) : norm2 q <> 0 -> norm2 (unit_of q) = 1.
Proof.
  intros H. unfold unit_of.
  destruct (Req_dec_T (sqrt (norm2 q)) 0) as [E | N].
  - exfalso. apply H. apply sqrt_norm2_zero. exact E.
  - rewrite norm2_scaled by exact N.
    rewrite sqrt_sqrt by apply norm2_nonneg.
    field. exact H.
Qed.

(** Every normalised object is a unit quaternion or the zero quaternion. *)
Lemma norm2_unit_of_cases (q : Quaternion) :
  norm2 (unit_of q) = 1 \/ (norm2 q = 0 /\ unit_of q = q).
Proof.
  destruct (Req_dec_T (norm2 q) 0) as [E | N].
  - right. split; [exact E | apply unit_of_zero; exact E].
  - left. apply norm2_unit_of. exact N.
Qed.

Lemma conjugate_run (q : Quaternion) : conjugate q = Ok (unit_of (conj_parts q)).
Proof. unfold conjugate. apply Quaternion_new_run. Qed.

Lemma productOf_run (p q : Quaternion) : productOf p q = Ok (unit_of (hamilton p q)).
Proof. unfold productOf. apply Quaternion_new_run. Qed.

Lemma difference_run (p q : Quaternion) :
  difference p q = Ok (unit_of (hamilton q (unit_of (conj_parts p)))).
Proof.
  unfold difference. rewrite conjugate_run. run. apply productOf_run.
Qed.

Lemma norm2_conj_parts (q : Quaternion) : norm2 (conj_parts q) = norm2 q.
Proof. unfold norm2, conj_parts. cbn [qw qx qy qz]. ring. Qed.

Lemma norm2_hamilton (p q : Quaternion) :
  norm2 (hamilton p q) = norm2 p * norm2 q.
Proof. unfold norm2, hamilton. cbn [qw qx qy qz]. ring. Qed.

(** ** [toQuaternion] *)

Ltac half_angles a b c :=
  unfold half_w, half_x, half_y, half_z; rewrite ?sin_2a, ?cos_2a;
  pose proof (sin2_cos2 a) as Ha; pose proof (sin2_cos2 b) as Hb;
  pose proof (sin2_cos2 c) as Hc; unfold Rsqr in Ha, Hb, Hc;
  assert (Ea : cos a * cos a = 1 - sin a * sin a) by lra;
  assert (Eb : cos b * cos b = 1 - sin b * sin b) by lra;
  assert (Ec : cos c * cos c = 1 - sin c * sin c) by lra;
  ring [Ea Eb Ec].

Lemma yaw_numerator (a b c : R) :
  2 * (half_w a b c * half_z a b c + half_x a b c * half_y a b c)
  = sin (2 * c) * cos (2 * b).
Proof. half_angles a b c. Qed.

Lemma yaw_denominator (a b c : R) :
  1 - 2 * (half_y a b c ^ 2 + half_z a b c ^ 2) = cos (2 * c) * cos (2 * b).
Proof. half_angles a b c. Qed.

Lemma roll_numerator (a b c : R) :
  2 * (half_w a b c * half_x a b c + half_y a b c * half_z a b c)
  = sin (2 * a) * cos (2 * b).
Proof. half_angles a b c. Qed.

Lemma roll_denominator (a b c : R) :
  1 - 2 * (half_x a b c ^ 2 + half_y a b c ^ 2) = cos (2 * a) * cos (2 * b).
Proof. half_angles a b c. Qed.

Lemma pitch_argument (a b c : R) :
  2 * (half_w a b c * half_y a b c - half_z a b c * half_x a b c) = sin (2 * b).
Proof. half_angles a b c. Qed.

Lemma half_norm (a b c : R) :
  half_w a b c ^ 2 + half_x a b c ^ 2 + half_y a b c ^ 2 + half_z a b c ^ 2 = 1.
Proof. half_angles a b c. Qed.

Lemma half_angle_run (deg : R) : half_angle deg = Ok (radians_half deg).
Proof.
  unfold half_angle, radians_half, math_pi.
  rewrite py_div_nonzero by lra. reflexivity.
Qed.

Lemma norm2_euler_parts (e : EulerAngles) : norm2 (euler_parts e) = 1.
Proof.
  unfold norm2, euler_parts. cbn [qw qx qy qz]. apply half_norm.
Qed.

Lemma toQuaternion_run (e : EulerAngles) : toQuaternion e = Ok (euler_parts e).
Proof.
  unfold toQuaternion. rewrite !half_angle_run. run.
  rewrite Quaternion_new_run.
  f_equal. apply (unit_of_unit (euler_parts e)). apply norm2_euler_parts.
Qed.

(** ** The unit-norm invariant *)

(** C2.  A quaternion built by the constructor, left by [normalise], or
    returned by [conjugate], [productOf], [difference] or [toQuaternion] has
    magnitude 1, unless the magnitude of what it was built from is zero. *)
Theorem unit_norm_invariant :
  (forall w x y z, magnitude (mkQuaternion w x y z) <> Ok 0 ->
     exists q, Quaternion_new w x y z = Ok q /\ magnitude q = Ok 1) /\
  (forall q, magnitude q <> Ok 0 ->
     exists q', normalise q = (Ok tt, q') /\ magnitude q' = Ok 1) /\
  (forall q, magnitude q <> Ok 0 ->
     exists c, conjugate q = Ok c /\ magnitude c = Ok 1) /\
  (forall p q, magnitude p <> Ok 0 -> magnitude q <> Ok 0 ->
     exists r, productOf p q = Ok r /\ magnitude r = Ok 1) /\
  (forall p q, magnitude p <> Ok 0 -> magnitude q <> Ok 0 ->
     exists r, difference p q = Ok r /\ magnitude r = Ok 1) /\
  (forall e, exists q, toQuaternion e = Ok q /\ magnitude q = Ok 1).
Proof.
  assert (nz : forall q, magnitude q <> Ok 0 -> norm2 q <> 0).
  { intros q H E. apply H. apply magnitude_zero_norm2. exact E. }
  repeat split.
  - intros w x y z H. eexists. split; [apply Quaternion_new_run |].
    apply magnitude_one_norm2, norm2_unit_of, nz, H.
  - intros q H. eexists. split; [apply normalise_run |].
    apply magnitude_one_norm2, norm2_unit_of, nz, H.
  - intros q H. eexists. split; [apply conjugate_run |].
    apply magnitude_one_norm2, norm2_unit_of.
    rewrite norm2_conj_parts. apply nz, H.
  - intros p q Hp Hq. eexists. split; [apply productOf_run |].
    apply magnitude_one_norm2, norm2_unit_of.
    rewrite norm2_hamilton. apply Rmult_integral_contrapositive_currified; apply nz; assumption.
  - intros p q Hp Hq. eexists. split; [apply difference_run |].
    apply magnitude_one_norm2, norm2_unit_of.
    rewrite norm2_hamilton. apply Rmult_integral_contrapositive_currified.
    + apply nz, Hq.
    + rewrite norm2_unit_of; [lra |]. rewrite norm2_conj_parts. apply nz, Hp.
  - intros e. exists (euler_parts e). split; [apply toQuaternion_run |].
    apply magnitude_one_norm2, norm2_euler_parts.
Qed.

Lemma magnitude_1100_nonzero : magnitude (mkQuaternion 1 1 0 0) <> Ok 0.
Proof.
  rewrite magnitude_total. intros H. injection H as H.
  apply sqrt_norm2_zero in H. unfold norm2 in H. cbn [qw qx qy qz] in H. lra.
Qed.

Lemma unit_norm_invariant_witness :
  (exists q, Quaternion_new 1 1 0 0 = Ok q /\ magnitude q = Ok 1) /\
  (exists r, productOf (mkQuaternion 1 1 0 0) (mkQuaternion 1 1 0 0) = Ok r /\
             magnitude r = Ok 1).
Proof.
  split.
  - apply (proj1 unit_norm_invariant). exact magnitude_1100_nonzero.
  - apply (proj1 (proj2 (proj2 (proj2 unit_norm_invariant)))).
    + exact magnitude_1100_nonzero.
    + exact magnitude_1100_nonzero.
Defined.

(** ** The zero quaternion *)

(** C3.  [Quaternion(0, 0, 0, 0)] is built without an exception and holds
    the four zeros; [normalise] on an object of magnitude zero returns
    normally and leaves the object as it was. *)
Theorem zero_magnitude_left_unchanged :
  Quaternion_new 0 0 0 0 = Ok (mkQuaternion 0 0 0 0) /\
  (forall q, magnitude q = Ok 0 -> normalise q = (Ok tt, q)).
Proof.
  assert (H : forall q, magnitude q = Ok 0 -> normalise q = (Ok tt, q)).
  { intros q Hq. rewrite normalise_run. f_equal.
    apply unit_of_zero. apply magnitude_zero_norm2. exact Hq. }
  split; [| exact H].
  rewrite Quaternion_new_run. f_equal. apply unit_of_zero.
  unfold norm2. cbn [qw qx qy qz]. ring.
Qed.

Lemma magnitude_0000_zero : magnitude (mkQuaternion 0 0 0 0) = Ok 0.
Proof.
  apply magnitude_zero_norm2. unfold norm2. cbn [qw qx qy qz]. ring.
Qed.

Lemma zero_magnitude_left_unchanged_witness :
  normalise (mkQuaternion 0 0 0 0) = (Ok tt, mkQuaternion 0 0 0 0).
Proof.
  apply (proj2 zero_magnitude_left_unchanged). exact magnitude_0000_zero.
Defined.

(** ** The Hamilton product *)

Lemma productOf_unit (p q : Quaternion) :
  norm2 p = 1 -> norm2 q = 1 -> productOf p q = Ok (hamilton p q).
Proof.
  intros Hp Hq. rewrite productOf_run. f_equal.
  apply unit_of_unit. rewrite norm2_hamilton, Hp, Hq. ring.
Qed.

(** C7.  On unit quaternions [productOf] returns the Hamilton product, its
    components given by the bilinear form. *)
Theorem productOf_hamilton (p q : Quaternion) :
  magnitude p = Ok 1 -> magnitude q = Ok 1 ->
  productOf p q =
  Ok (mkQuaternion
        (qw p * qw q - qx p * qx q - qy p * qy q - qz p * qz q)
        (qw p * qx q + qx p * qw q + qy p * qz q - qz p * qy q)
        (qw p * qy q - qx p * qz q + qy p * qw q + qz p * qx q)
        (qw p * qz q + qx p * qy q - qy p * qx q + qz p * qw q)).
Proof.
  intros Hp Hq. apply magnitude_one_norm2 in Hp. apply magnitude_one_norm2 in Hq.
  exact (productOf_unit p q Hp Hq).
Qed.

Lemma magnitude_0100_one : magnitude (mkQuaternion 0 1 0 0) = Ok 1.
Proof.
  apply magnitude_one_norm2. unfold norm2. cbn [qw qx qy qz]. ring.
Qed.

Lemma magnitude_0010_one : magnitude (mkQuaternion 0 0 1 0) = Ok 1.
Proof.
  apply magnitude_one_norm2. unfold norm2. cbn [qw qx qy qz]. ring.
Qed.

Lemma productOf_hamilton_witness :
  productOf (mkQuaternion 0 1 0 0) (mkQuaternion 0 0 1 0) =
  Ok (mkQuaternion
        (0 * 0 - 1 * 0 - 0 * 1 - 0 * 0)
        (0 * 0 + 1 * 0 + 0 * 0 - 0 * 1)
        (0 * 1 - 1 * 0 + 0 * 0 + 0 * 0)
        (0 * 0 + 1 * 1 - 0 * 0 + 0 * 0)).
Proof.
  apply (productOf_hamilton (mkQuaternion 0 1 0 0) (mkQuaternion 0 0 1 0)).
  - exact magnitude_0100_one.
  - exact magnitude_0010_one.
Defined.

(** ** The difference of a quaternion with itself *)

(** C8.  [difference] is [other.productOf(this.conjugate())], and for a unit
    quaternion [q] the difference [q.difference(q)] is the identity. *)
Theorem difference_self_identity :
  (forall this other,
     difference this other = (c <- conjugate this ;; productOf other c)) /\
  (forall q, magnitude q = Ok 1 ->
     difference q q = Ok (mkQuaternion 1 0 0 0)).
Proof.
  split; [reflexivity |].
  intros q Hq. apply magnitude_one_norm2 in Hq.
  rewrite difference_run.
  rewrite (unit_of_unit (conj_parts q)) by (rewrite norm2_conj_parts; exact Hq).
  assert (E : hamilton q (conj_parts q) = mkQuaternion 1 0 0 0).
  { unfold hamilton, conj_parts. cbn [qw qx qy qz]. rewrite <- Hq. unfold norm2.
    f_equal; ring. }
  rewrite E. f_equal. apply unit_of_unit.
  unfold norm2. cbn [qw qx qy qz]. ring.
Qed.

Lemma difference_self_identity_witness :
  difference (mkQuaternion 0 1 0 0) (mkQuaternion 0 1 0 0) =
  Ok (mkQuaternion 1 0 0 0).
Proof.
  apply (proj2 difference_self_identity). exact magnitude_0100_one.
Defined.

(** ** [_wrap_asin] and [toEuler] *)

Lemma wrap_asin_run (v : R) : _wrap_asin v = Ok (wrap_asin_val v).
Proof.
  unfold _wrap_asin, wrap_asin_val, math_pi.
  destruct (Rge_dec v 1) as [H1 | H1].
  - apply py_div_nonzero. lra.
  - destruct (Rle_dec v (-1)) as [H2 | H2].
    + rewrite py_div_nonzero by lra. reflexivity.
    + unfold math_asin.
      destruct (Rlt_dec v (-1)) as [H3 | _]; [lra |].
      destruct (Rlt_dec 1 v) as [H4 | _]; [lra |].
      reflexivity.
Qed.

Lemma toEuler_run (q : Quaternion) : toEuler q = Ok (euler_of q).
Proof.
  unfold toEuler, euler_of. rewrite !py_div_pi. run.
  rewrite wrap_asin_run. run. rewrite py_div_pi. reflexivity.
Qed.

(** C9.  [_wrap_asin] returns [PI / 2] for every input at or above 1 and
    [- (PI / 2)] for every input at or below -1, so that [toEuler] reports a
    pitch of 90 and -90 degrees there; 1.0000001 and -1.0000001 are such
    inputs. *)
Theorem wrap_asin_clamps :
  (forall v, v >= 1 -> _wrap_asin v = Ok (PI / 2)) /\
  (forall v, v <= -1 -> _wrap_asin v = Ok (- (PI / 2))) /\
  (forall q, 2 * (qw q * qy q - qz q * qx q) >= 1 ->
     exists e, toEuler q = Ok e /\ pitch e = 90) /\
  (forall q, 2 * (qw q * qy q - qz q * qx q) <= -1 ->
     exists e, toEuler q = Ok e /\ pitch e = -90) /\
  (a <- _wrap_asin 1.0000001 ;; r <- py_div a math_pi ;; Ok (r * 180)) = Ok 90 /\
  (a <- _wrap_asin (-1.0000001) ;; r <- py_div a math_pi ;; Ok (r * 180)) = Ok (-90).
Proof.
  assert (Hhi : forall v, v >= 1 -> wrap_asin_val v = PI / 2).
  { intros v Hv. unfold wrap_asin_val.
    destruct (Rge_dec v 1) as [_ | N]; [reflexivity | contradiction]. }
  assert (Hlo : forall v, v <= -1 -> wrap_asin_val v = - (PI / 2)).
  { intros v Hv. unfold wrap_asin_val.
    destruct (Rge_dec v 1) as [H1 | _]; [lra |].
    destruct (Rle_dec v (-1)) as [_ | N]; [reflexivity | contradiction]. }
  assert (D1 : PI / 2 / PI * 180 = 90) by (field; exact PI_neq0).
  assert (D2 : - (PI / 2) / PI * 180 = -90) by (field; exact PI_neq0).
  repeat split.
  - intros v Hv. rewrite wrap_asin_run, Hhi by exact Hv. reflexivity.
  - intros v Hv. rewrite wrap_asin_run, Hlo by exact Hv. reflexivity.
  - intros q Hq. exists (euler_of q). split; [apply toEuler_run |].
    unfold euler_of. cbn [pitch]. rewrite Hhi by exact Hq. exact D1.
  - intros q Hq. exists (euler_of q). split; [apply toEuler_run |].
    unfold euler_of. cbn [pitch]. rewrite Hlo by exact Hq. exact D2.
  - rewrite wrap_asin_run, Hhi by lra. run. rewrite py_div_pi. run.
    rewrite D1. reflexivity.
  - rewrite wrap_asin_run, Hlo by lra. run. rewrite py_div_pi. run.
    rewrite D2. reflexivity.
Qed.

Lemma wrap_asin_clamps_witness :
  _wrap_asin 2 = Ok (PI / 2) /\ _wrap_asin (-2) = Ok (- (PI / 2)) /\
  (exists e, toEuler (mkQuaternion 1 0 1 0) = Ok e /\ pitch e = 90) /\
  (exists e, toEuler (mkQuaternion 1 0 (-1) 0) = Ok e /\ pitch e = -90).
Proof.
  repeat split.
  - apply (proj1 wrap_asin_clamps). lra.
  - apply (proj1 (proj2 wrap_asin_clamps)). lra.
  - apply (proj1 (proj2 (proj2 wrap_asin_clamps))). cbn [qw qx qy qz]. lra.
  - apply (proj1 (proj2 (proj2 (proj2 wrap_asin_clamps)))). cbn [qw qx qy qz]. lra.
Defined.

(** ** [update] *)

Lemma Quaternion_eta (q : Quaternion) :
  mkQuaternion (qw q) (qx q) (qy q) (qz q) = q.
Proof. destruct q. reflexivity. Qed.

Lemma update_run (now : R) (attitude tgt : QRef) (k : Kinematics) :
  update now attitude tgt k =
  let k' := adopted now attitude tgt k in
  let dt := now - time k in
  let delta := delta_of (base k) (base k') in
  if Req_dec_T dt 0 then (Raise ZeroDivisionError, k')
  else (Ok tt,
        mkKinematics (base k') tgt now
          (yaw delta / dt, pitch delta / dt, roll delta / dt)
          (error_of (base k') (deref k' tgt))).
Proof.
  destruct k as [[w x y z] t tm v e].
  unfold update, adopted, delta_of, error_of, py_div. run.
  rewrite Quaternion_new_run. run.
  destruct attitude as [| [aw ax ay az]]; run;
    rewrite difference_run; run; rewrite toEuler_run; run;
    destruct (Req_dec_T (now - tm) 0); run;
    try rewrite difference_run; run; reflexivity.
Qed.

(** [normalise] multiplies the four components by one factor. *)
Lemma unit_of_factor (q : Quaternion) :
  exists s, unit_of q = mkQuaternion (qw q * s) (qx q * s) (qy q * s) (qz q * s).
Proof.
  unfold unit_of. destruct (Req_dec_T (sqrt (norm2 q)) 0) as [_ | _].
  - exists 1. destruct q as [w x y z]. cbn [qw qx qy qz]. f_equal; ring.
  - exists (/ sqrt (norm2 q)). reflexivity.
Qed.

Lemma math_atan2_0_1 : math_atan2 0 1 = 0.
Proof.
  unfold math_atan2. destruct (Rlt_dec 0 1) as [_ | N]; [| lra].
  replace (0 / 1) with 0 by field. exact atan_0.
Qed.

Lemma wrap_asin_val_0 : wrap_asin_val 0 = 0.
Proof.
  unfold wrap_asin_val.
  destruct (Rge_dec 0 1) as [H | _]; [lra |].
  destruct (Rle_dec 0 (-1)) as [H | _]; [lra |].
  exact asin_0.
Qed.

(** A quaternion without vector part converts to the zero angles. *)
Lemma euler_of_scalar (q : Quaternion) :
  qx q = 0 -> qy q = 0 -> qz q = 0 -> euler_of q = mkEulerAngles 0 0 0.
Proof.
  intros Hx Hy Hz. unfold euler_of. rewrite Hx, Hy, Hz.
  replace (2 * (qw q * 0 + 0 * 0)) with 0 by ring.
  replace (1 - 2 * (0 ^ 2 + 0 ^ 2)) with 1 by ring.
  replace (2 * (qw q * 0 - 0 * 0)) with 0 by ring.
  rewrite math_atan2_0_1, wrap_asin_val_0.
  f_equal; unfold Rdiv; ring.
Qed.

(** An attitude that did not change gives the zero angles. *)
Lemma delta_of_same (b : Quaternion) : delta_of b b = mkEulerAngles 0 0 0.
Proof.
  unfold delta_of.
  destruct (unit_of_factor b) as [s1 E1]. rewrite E1.
  destruct (unit_of_factor (conj_parts
              (mkQuaternion (qw b * s1) (qx b * s1) (qy b * s1) (qz b * s1))))
    as [s2 E2].
  rewrite E2. unfold conj_parts. cbn [qw qx qy qz].
  destruct (unit_of_factor (hamilton b
              (mkQuaternion (qw b * s1 * s2) (- (qx b * s1) * s2)
                            (- (qy b * s1) * s2) (- (qz b * s1) * s2))))
    as [s3 E3].
  rewrite E3. unfold hamilton. cbn [qw qx qy qz].
  apply euler_of_scalar; cbn [qx qy qz]; ring.
Qed.

Lemma unit_of_identity : unit_of identity = identity.
Proof.
  apply unit_of_unit. unfold norm2, identity. cbn [qw qx qy qz]. ring.
Qed.

Lemma Kinematics_new_identity : Kinematics_new 0 1 0 0 0 = Ok tracker0.
Proof.
  unfold Kinematics_new, Kinematics_init. run.
  rewrite Quaternion_init_run. fold identity. rewrite unit_of_identity. run.
  unfold identity. run. fold identity.
  rewrite difference_run.
  replace (conj_parts identity) with identity
    by (unfold conj_parts, identity; cbn [qw qx qy qz]; f_equal; ring).
  rewrite unit_of_identity.
  replace (hamilton identity identity) with identity
    by (unfold hamilton, identity; cbn [qw qx qy qz]; f_equal; ring).
  rewrite unit_of_identity. reflexivity.
Qed.

(** ** A zero time step *)

(** C1, as the code behaves.  When the clock has not advanced, [update]
    raises [ZeroDivisionError] to its caller, and [getAngularVelocities]
    still returns the velocity cached before the call. *)
Theorem update_zero_dt_raises (now : R) (attitude tgt : QRef) (k : Kinematics) :
  now - time k = 0 ->
  fst (update now attitude tgt k) = Raise ZeroDivisionError /\
  getAngularVelocities (snd (update now attitude tgt k)) = getAngularVelocities k.
Proof.
  intros Hdt. rewrite update_run. cbv zeta.
  destruct (Req_dec_T (now - time k) 0) as [_ | N]; [| contradiction].
  split; reflexivity.
Qed.

Lemma update_zero_dt_raises_witness :
  fst (update 0 Self Self tracker0) = Raise ZeroDivisionError /\
  getAngularVelocities (snd (update 0 Self Self tracker0)) =
  getAngularVelocities tracker0.
Proof.
  apply (update_zero_dt_raises 0 Self Self tracker0).
  unfold tracker0. cbn [time]. lra.
Defined.

(** C1 as stated fails: a second [update] at the clock reading of the first
    does not complete, the caller receives [ZeroDivisionError]. *)
Lemma update_zero_dt_completes_counterexample :
  0 - time tracker0 = 0 /\
  update 0 Self Self tracker0 = (Raise ZeroDivisionError, tracker0) /\
  ~ (exists k', update 0 Self Self tracker0 = (Ok tt, k')).
Proof.
  assert (E : update 0 Self Self tracker0 = (Raise ZeroDivisionError, tracker0)).
  { rewrite update_run. cbv zeta.
    destruct (Req_dec_T (0 - time tracker0) 0) as [_ | N].
    - reflexivity.
    - exfalso. apply N. unfold tracker0. cbn [time]. lra. }
  split; [unfold tracker0; cbn [time]; lra |].
  split; [exact E |].
  intros [k' H]. rewrite E in H. discriminate H.
Qed.

(** C10.  When the clock returns the timestamp of the previous update, the
    velocity division raises [ZeroDivisionError] with the timestamp, the
    attitude fields and the target already overwritten, and the cached
    velocity and error still those of the previous update; the tracker
    [Kinematics()] updated in its own tick to a half turn about x, with the
    identity as target, then holds an error that is not the difference of
    its attitude and its target. *)
Theorem update_same_tick_not_atomic :
  (forall now attitude tgt k,
     now = time k ->
     exists k', update now attitude tgt k = (Raise ZeroDivisionError, k') /\
                time k' = now /\
                base k' = deref k attitude /\
                target k' = tgt /\
                getAngularVelocities k' = getAngularVelocities k /\
                getErrorQuaternion k' = getErrorQuaternion k) /\
  (exists k', update 0 (Other (mkQuaternion 0 1 0 0)) (Other identity) tracker0
              = (Raise ZeroDivisionError, k') /\
              difference (base k') (deref k' (target k')) <>
              Ok (getErrorQuaternion k')).
Proof.
  assert (G : forall now attitude tgt k,
     now = time k ->
     update now attitude tgt k = (Raise ZeroDivisionError, adopted now attitude tgt k)).
  { intros now attitude tgt k Hn. rewrite update_run. cbv zeta.
    destruct (Req_dec_T (now - time k) 0) as [_ | N]; [reflexivity | lra]. }
  split.
  - intros now attitude tgt k Hn. exists (adopted now attitude tgt k).
    split; [apply G; exact Hn |]. repeat split.
  - eexists. split; [apply G; reflexivity |].
    unfold adopted, tracker0. cbn [base target deref error degSecYPR getErrorQuaternion].
    rewrite difference_run.
    rewrite (unit_of_unit (conj_parts (mkQuaternion 0 1 0 0)))
      by (unfold norm2, conj_parts; cbn [qw qx qy qz]; ring).
    rewrite unit_of_unit
      by (unfold norm2, hamilton, conj_parts, identity; cbn [qw qx qy qz]; ring).
    unfold hamilton, conj_parts, identity. cbn [qw qx qy qz].
    intros H. injection H as Hw _ _ _. lra.
Qed.

Lemma update_same_tick_not_atomic_witness :
  exists k', update 0 (Other (mkQuaternion 0 1 0 0)) Self tracker0
             = (Raise ZeroDivisionError, k') /\
             time k' = 0 /\
             base k' = deref tracker0 (Other (mkQuaternion 0 1 0 0)) /\
             target k' = Self /\
             getAngularVelocities k' = getAngularVelocities tracker0 /\
             getErrorQuaternion k' = getErrorQuaternion tracker0.
Proof.
  apply (proj1 update_same_tick_not_atomic). reflexivity.
Defined.

(** ** Retargeting *)

(** C5.  With a positive time step, [setTarget q] leaves the attitude fields
    as they were, makes [q] the target, and caches the velocity (0, 0, 0). *)
Theorem setTarget_is_retarget (now : R) (q : QRef) (k : Kinematics) :
  now - time k > 0 ->
  exists k', setTarget now q k = (Ok tt, k') /\
             base k' = base k /\
             target k' = q /\
             getAngularVelocities k' = (0, 0, 0).
Proof.
  intros Hdt. unfold setTarget. run. rewrite update_run. cbv zeta.
  unfold adopted. destruct k as [b t tm v e]. run.
  destruct (Req_dec_T (now - tm) 0) as [E | _]; [cbn [time] in Hdt; lra |].
  eexists. split; [reflexivity |]. run. repeat split.
  unfold getAngularVelocities. run. rewrite delta_of_same. run.
  unfold Rdiv. rewrite !Rmult_0_l. reflexivity.
Qed.

Lemma setTarget_is_retarget_witness :
  exists k', setTarget 1 (Other (mkQuaternion 0 1 0 0)) tracker0 = (Ok tt, k') /\
             base k' = base tracker0 /\
             target k' = Other (mkQuaternion 0 1 0 0) /\
             getAngularVelocities k' = (0, 0, 0).
Proof.
  apply (setTarget_is_retarget 1 (Other (mkQuaternion 0 1 0 0)) tracker0).
  unfold tracker0. cbn [time]. lra.
Defined.

(** C6.  [rotateTarget q] makes the target the product of the old target
    with [q], whatever the time step; where the old target is a half turn
    about x and [q] a half turn about y, that is the half turn about z with
    z = 1, neither the product in the other order (z = -1) nor [q]. *)
Theorem rotateTarget_post_multiplies :
  (forall now q k,
     exists t r k',
       productOf (deref k (target k)) (deref k q) = Ok t /\
       rotateTarget now q k = (r, k') /\
       target k' = Other t) /\
  (forall now,
     let old := mkQuaternion 0 1 0 0 in
     let q := mkQuaternion 0 0 1 0 in
     let k := mkKinematics identity (Other old) 0 (0, 0, 0) old in
     productOf old q = Ok (mkQuaternion 0 0 0 1) /\
     productOf q old = Ok (mkQuaternion 0 0 0 (-1)) /\
     target (snd (rotateTarget now (Other q) k)) = Other (mkQuaternion 0 0 0 1)).
Proof.
  assert (G : forall now q k,
     target (snd (rotateTarget now q k)) =
     Other (unit_of (hamilton (deref k (target k)) (deref k q)))).
  { intros now q k. unfold rotateTarget. run. rewrite productOf_run. run.
    rewrite update_run. cbv zeta.
    destruct (Req_dec_T _ 0); reflexivity. }
  split.
  - intros now q k. eexists. exists (fst (rotateTarget now q k)).
    exists (snd (rotateTarget now q k)).
    split; [apply productOf_run |]. split; [apply surjective_pairing |].
    apply G.
  - intros now. cbv zeta.
    assert (P1 : productOf (mkQuaternion 0 1 0 0) (mkQuaternion 0 0 1 0)
                 = Ok (mkQuaternion 0 0 0 1)).
    { rewrite productOf_unit by (unfold norm2; cbn [qw qx qy qz]; ring).
      unfold hamilton. cbn [qw qx qy qz]. f_equal. f_equal; ring. }
    assert (P2 : productOf (mkQuaternion 0 0 1 0) (mkQuaternion 0 1 0 0)
                 = Ok (mkQuaternion 0 0 0 (-1))).
    { rewrite productOf_unit by (unfold norm2; cbn [qw qx qy qz]; ring).
      unfold hamilton. cbn [qw qx qy qz]. f_equal. f_equal; ring. }
    split; [exact P1 |]. split; [exact P2 |].
    rewrite G. cbn [deref target]. f_equal.
    rewrite productOf_run in P1. injection P1 as P1. exact P1.
Qed.

(** ** Euler angles, to a quaternion and back *)

(** [math.atan2] recovers the angle of a point given in polar form. *)
Lemma tan_polar (t k : R) :
  cos t <> 0 -> k <> 0 -> sin t * k / (cos t * k) = tan t.
Proof. intros Hc Hk. unfold tan. field. split; assumption. Qed.

Lemma math_atan2_polar (t k : R) :
  0 < k -> - PI < t <= PI -> math_atan2 (sin t * k) (cos t * k) = t.
Proof.
  intros Hk [Hlo Hhi]. pose proof PI_RGT_0 as Hpi.
  unfold math_atan2.
  destruct (Rlt_dec t (- (PI / 2))) as [A | A].
  - (* third quadrant *)
    assert (Hc : cos t < 0).
    { rewrite <- cos_neg. apply cos_lt_0; lra. }
    assert (Hs : sin t < 0) by (apply sin_lt_0_var; lra).
    destruct (Rlt_dec 0 (cos t * k)) as [H | _]; [nra |].
    destruct (Rlt_dec (cos t * k) 0) as [_ | H]; [| nra].
    destruct (Rle_dec 0 (sin t * k)) as [H | _]; [nra |].
    rewrite tan_polar by lra.
    replace (tan t) with (tan (t + PI)).
    + rewrite atan_tan by lra. ring.
    + unfold tan. rewrite neg_sin, neg_cos. field. lra.
  - destruct (Req_dec_T t (- (PI / 2))) as [B | B].
    + (* straight down *)
      assert (Hc : cos t = 0) by (rewrite B, cos_neg; exact cos_PI2).
      assert (Hs : sin t = -1) by (rewrite B, sin_neg, sin_PI2; ring).
      rewrite Hc, Hs.
      destruct (Rlt_dec 0 (0 * k)) as [H | _]; [lra |].
      destruct (Rlt_dec (0 * k) 0) as [H | _]; [lra |].
      destruct (Rlt_dec 0 (-1 * k)) as [H | _]; [lra |].
      destruct (Rlt_dec (-1 * k) 0) as [_ | H]; [| lra].
      symmetry. exact B.
    + destruct (Rlt_dec t (PI / 2)) as [C | C].
      * (* right half plane *)
        assert (Hc : 0 < cos t) by (apply cos_gt_0; lra).
        destruct (Rlt_dec 0 (cos t * k)) as [_ | H]; [| nra].
        rewrite tan_polar by lra.
        apply atan_tan. lra.
      * destruct (Req_dec_T t (PI / 2)) as [D | D].
        -- (* straight up *)
           assert (Hc : cos t = 0) by (rewrite D; exact cos_PI2).
           assert (Hs : sin t = 1) by (rewrite D; exact sin_PI2).
           rewrite Hc, Hs.
           destruct (Rlt_dec 0 (0 * k)) as [H | _]; [lra |].
           destruct (Rlt_dec (0 * k) 0) as [H | _]; [lra |].
           destruct (Rlt_dec 0 (1 * k)) as [_ | H]; [| lra].
           symmetry. exact D.
        -- (* second quadrant *)
           assert (Hc : cos t < 0) by (apply cos_lt_0; lra).
           assert (Hs : 0 <= sin t) by (apply sin_ge_0; lra).
           destruct (Rlt_dec 0 (cos t * k)) as [H | _]; [nra |].
           destruct (Rlt_dec (cos t * k) 0) as [_ | H]; [| nra].
           destruct (Rle_dec 0 (sin t * k)) as [_ | H]; [| nra].
           rewrite tan_polar by lra.
           replace (tan t) with (tan (t - PI)).
           ++ rewrite atan_tan by lra. ring.
           ++ unfold tan. rewrite sin_minus, cos_minus, cos_PI, sin_PI.
              field. lra.
Qed.

Lemma wrap_asin_val_sin (t : R) :
  - (PI / 2) < t < PI / 2 -> wrap_asin_val (sin t) = t.
Proof.
  intros [Hlo Hhi].
  assert (Hc : 0 < cos t) by (apply cos_gt_0; lra).
  pose proof (sin2_cos2 t) as H. unfold Rsqr in H.
  unfold wrap_asin_val.
  destruct (Rge_dec (sin t) 1) as [A | _]; [nra |].
  destruct (Rle_dec (sin t) (-1)) as [A | _]; [nra |].
  apply asin_sin. lra.
Qed.

Lemma radians_half_double (deg : R) : 2 * radians_half deg = deg * PI / 180.
Proof. unfold radians_half. lra. Qed.

Lemma euler_of_euler_parts (e : EulerAngles) :
  -180 < yaw e <= 180 -> -90 < pitch e < 90 -> -180 < roll e <= 180 ->
  euler_of (euler_parts e) = e.
Proof.
  destruct e as [y p r]. cbn [yaw pitch roll]. intros Hy Hp Hr.
  pose proof PI_RGT_0 as Hpi.
  unfold euler_of, euler_parts. cbn [qw qx qy qz yaw pitch roll].
  rewrite yaw_numerator, yaw_denominator, roll_numerator, roll_denominator,
    pitch_argument.
  assert (Hk : 0 < cos (2 * radians_half p)).
  { apply cos_gt_0; rewrite radians_half_double; nra. }
  rewrite !math_atan2_polar by (try exact Hk; rewrite radians_half_double; nra).
  rewrite wrap_asin_val_sin by (rewrite radians_half_double; nra).
  rewrite !radians_half_double.
  f_equal; field; lra.
Qed.

(** C4, as the code behaves.  Over exact real arithmetic, with the pitch
    strictly between -90 and 90 degrees and the yaw and the roll strictly
    between -180 and 180, converting to a quaternion and back returns the
    three angles, exactly. *)
Theorem euler_roundtrip (y p r : R) :
  -180 < y < 180 -> -90 < p < 90 -> -180 < r < 180 ->
  (q <- toQuaternion (EulerAngles_new y p r) ;; toEuler q) =
  Ok (EulerAngles_new y p r).
Proof.
  intros Hy Hp Hr. rewrite toQuaternion_run. run. rewrite toEuler_run.
  f_equal. apply (euler_of_euler_parts (mkEulerAngles y p r));
    cbn [yaw pitch roll]; lra.
Qed.

Lemma euler_roundtrip_witness :
  (q <- toQuaternion (EulerAngles_new 120 45 (-30)) ;; toEuler q) =
  Ok (EulerAngles_new 120 45 (-30)).
Proof.
  apply (euler_roundtrip 120 45 (-30)); lra.
Defined.

(** C4 as stated fails: a yaw of a full turn, which the claim does not
    exclude, comes back as 0. *)
Lemma euler_roundtrip_full_turn_counterexample :
  -90 < 0 < 90 /\
  (q <- toQuaternion (EulerAngles_new 360 0 0) ;; toEuler q) =
  Ok (EulerAngles_new 0 0 0) /\
  Rabs (0 - 360) > 1e-6.
Proof.
  split; [lra |]. split.
  - rewrite toQuaternion_run. run. rewrite toEuler_run. f_equal.
    unfold euler_parts, EulerAngles_new. cbn [yaw pitch roll].
    replace (radians_half 360) with PI by (unfold radians_half; lra).
    replace (radians_half 0) with 0 by (unfold radians_half; lra).
    unfold half_w, half_x, half_y, half_z.
    rewrite cos_PI, sin_PI, cos_0, sin_0.
    apply euler_of_scalar; cbn [qx qy qz]; ring.
  - unfold Rabs. destruct (Rcase_abs (0 - 360)); lra.
Qed.

(** * Further properties of the code *)

(** ** Scaling and normalisation *)

Lemma norm2_zero_components (q : Quaternion) : norm2 q = 0 -> q = zero_quaternion.
Proof.
  destruct q as [w x y z]. unfold norm2, zero_quaternion. cbn [qw qx qy qz].
  intros H.
  assert (w = 0) by nra. assert (x = 0) by nra.
  assert (y = 0) by nra. assert (z = 0) by nra.
  subst. reflexivity.
Qed.

Lemma sqrt_norm2_pos (q : Quaternion) : norm2 q <> 0 -> 0 < sqrt (norm2 q).
Proof.
  intros H. apply sqrt_lt_R0. pose proof (norm2_nonneg q). lra.
Qed.

(** [normalise] multiplies by a positive factor. *)
Lemma unit_of_pos_factor (q : Quaternion) :
  exists s, 0 < s /\ unit_of q = qscale s q.
Proof.
  unfold unit_of. destruct (Req_dec_T (sqrt (norm2 q)) 0) as [E | N].
  - exists 1. split; [lra |]. destruct q as [w x y z].
    unfold qscale. cbn [qw qx qy qz]. f_equal; ring.
  - exists (/ sqrt (norm2 q)). split; [| reflexivity].
    apply Rinv_0_lt_compat. apply sqrt_norm2_pos.
    intros E. apply N. apply sqrt_norm2_zero. exact E.
Qed.

Lemma norm2_qscale (s : R) (q : Quaternion) : norm2 (qscale s q) = s * s * norm2 q.
Proof. unfold norm2, qscale. cbn [qw qx qy qz]. ring. Qed.

(** A positive factor is forgotten by [normalise]. *)
Lemma unit_of_qscale (s : R) (q : Quaternion) :
  0 < s -> unit_of (qscale s q) = unit_of q.
Proof.
  intros Hs. destruct (Req_dec_T (norm2 q) 0) as [E | N].
  - rewrite (norm2_zero_components q E).
    replace (qscale s zero_quaternion) with zero_quaternion
      by (unfold qscale, zero_quaternion; cbn [qw qx qy qz]; f_equal; ring).
    reflexivity.
  - pose proof (sqrt_norm2_pos q N) as Hm.
    assert (Hr : sqrt (norm2 (qscale s q)) = s * sqrt (norm2 q)).
    { rewrite norm2_qscale. rewrite sqrt_mult_alt by nra.
      rewrite sqrt_square by lra. reflexivity. }
    unfold unit_of. rewrite Hr.
    destruct (Req_dec_T (s * sqrt (norm2 q)) 0) as [E | _]; [nra |].
    destruct (Req_dec_T (sqrt (norm2 q)) 0) as [E | _]; [lra |].
    unfold scaled, qscale. cbn [qw qx qy qz]. f_equal; field; lra.
Qed.

Lemma unit_of_idempotent (q : Quaternion) : unit_of (unit_of q) = unit_of q.
Proof.
  destruct (norm2_unit_of_cases q) as [H | [H E]].
  - apply unit_of_unit. exact H.
  - rewrite E. exact E.
Qed.

Lemma hamilton_qscale_l (s : R) (p q : Quaternion) :
  hamilton (qscale s p) q = qscale s (hamilton p q).
Proof. unfold hamilton, qscale. cbn [qw qx qy qz]. f_equal; ring. Qed.

Lemma hamilton_qscale_r (s : R) (p q : Quaternion) :
  hamilton p (qscale s q) = qscale s (hamilton p q).
Proof. unfold hamilton, qscale. cbn [qw qx qy qz]. f_equal; ring. Qed.

Lemma hamilton_assoc (a b c : Quaternion) :
  hamilton (hamilton a b) c = hamilton a (hamilton b c).
Proof. unfold hamilton. cbn [qw qx qy qz]. f_equal; ring. Qed.

Lemma conj_parts_qscale (s : R) (q : Quaternion) :
  conj_parts (qscale s q) = qscale s (conj_parts q).
Proof. unfold conj_parts, qscale. cbn [qw qx qy qz]. f_equal; ring. Qed.

(** X1.  [normalise] is idempotent: a second call leaves what the first
    call left, whatever the object held. *)
Theorem normalise_idempotent (q : Quaternion) :
  exists q', normalise q = (Ok tt, q') /\ normalise q' = (Ok tt, q').
Proof.
  exists (unit_of q). split; [apply normalise_run |].
  rewrite normalise_run, unit_of_idempotent. reflexivity.
Qed.

(** X2.  The constructor forgets a positive common factor of its four
    arguments. *)
Theorem Quaternion_new_scale_invariant (s w x y z : R) :
  0 < s ->
  Quaternion_new (w * s) (x * s) (y * s) (z * s) = Quaternion_new w x y z.
Proof.
  intros Hs. rewrite !Quaternion_new_run. f_equal.
  apply (unit_of_qscale s (mkQuaternion w x y z)). exact Hs.
Qed.

Lemma Quaternion_new_scale_invariant_witness :
  Quaternion_new (1 * 2) (1 * 2) (0 * 2) (0 * 2) = Quaternion_new 1 1 0 0.
Proof.
  apply (Quaternion_new_scale_invariant 2 1 1 0 0). lra.
Defined.

(** X3.  On fields whose squares neither overflow nor underflow,
    [magnitude] returns a number that is not negative, and that is zero only
    for the zero quaternion. *)
Theorem magnitude_nonnegative (q : Quaternion) :
  fields_ordinary q ->
  exists m, magnitude q = Ok m /\ 0 <= m /\ (m = 0 <-> q = zero_quaternion).
Proof.
  intros _. exists (sqrt (norm2 q)). split; [apply magnitude_total |].
  split; [apply sqrt_pos |]. split.
  - intros H. apply norm2_zero_components. apply sqrt_norm2_zero. exact H.
  - intros H. rewrite H. apply sqrt_norm2_zero.
    unfold norm2, zero_quaternion. cbn [qw qx qy qz]. ring.
Qed.

Lemma ordinary_0 : ordinary 0.
Proof. left. reflexivity. Qed.

Lemma ordinary_1 : ordinary 1.
Proof. right. rewrite Rabs_pos_eq by lra. lra. Qed.

Lemma magnitude_nonnegative_witness :
  exists m, magnitude (mkQuaternion 1 1 0 0) = Ok m /\ 0 <= m /\
            (m = 0 <-> mkQuaternion 1 1 0 0 = zero_quaternion).
Proof.
  apply (magnitude_nonnegative (mkQuaternion 1 1 0 0)).
  repeat split; cbn [qw qx qy qz];
    first [exact ordinary_1 | exact ordinary_0].
Defined.

(** ** Algebra of [productOf], [conjugate] and [difference] *)

Lemma unit_of_hamilton_l (p q : Quaternion) :
  unit_of (hamilton (unit_of p) q) = unit_of (hamilton p q).
Proof.
  destruct (unit_of_pos_factor p) as [s [Hs E]]. rewrite E.
  rewrite hamilton_qscale_l. apply unit_of_qscale. exact Hs.
Qed.

Lemma unit_of_hamilton_r (p q : Quaternion) :
  unit_of (hamilton p (unit_of q)) = unit_of (hamilton p q).
Proof.
  destruct (unit_of_pos_factor q) as [s [Hs E]]. rewrite E.
  rewrite hamilton_qscale_r. apply unit_of_qscale. exact Hs.
Qed.

Lemma unit_of_conj_parts (q : Quaternion) :
  unit_of (conj_parts (unit_of q)) = unit_of (conj_parts q).
Proof.
  destruct (unit_of_pos_factor q) as [s [Hs E]]. rewrite E.
  rewrite conj_parts_qscale. apply unit_of_qscale. exact Hs.
Qed.

Lemma conj_parts_unit_of (q : Quaternion) :
  conj_parts (unit_of q) = unit_of (conj_parts q).
Proof.
  unfold unit_of. rewrite norm2_conj_parts.
  destruct (Req_dec_T (sqrt (norm2 q)) 0) as [_ | _]; [reflexivity |].
  unfold conj_parts, scaled. cbn [qw qx qy qz]. f_equal; unfold Rdiv; ring.
Qed.

(** X4.  [productOf] is associative, for all quaternions, unit or not. *)
Theorem productOf_assoc (a b c : Quaternion) :
  (ab <- productOf a b ;; productOf ab c) =
  (bc <- productOf b c ;; productOf a bc).
Proof.
  rewrite !productOf_run. run. rewrite !productOf_run. f_equal.
  rewrite unit_of_hamilton_l, unit_of_hamilton_r, hamilton_assoc. reflexivity.
Qed.

(** X5.  The identity quaternion (1, 0, 0, 0) is neutral for [productOf] on
    unit quaternions, on the left and on the right. *)
Theorem productOf_identity (q : Quaternion) :
  magnitude q = Ok 1 ->
  productOf identity q = Ok q /\ productOf q identity = Ok q.
Proof.
  intros Hq. apply magnitude_one_norm2 in Hq.
  rewrite !productOf_run. destruct q as [w x y z].
  split; f_equal; rewrite <- (unit_of_unit _ Hq) at 2; f_equal;
    unfold hamilton, identity; cbn [qw qx qy qz]; f_equal; ring.
Qed.

Lemma productOf_identity_witness :
  productOf identity (mkQuaternion 0 1 0 0) = Ok (mkQuaternion 0 1 0 0) /\
  productOf (mkQuaternion 0 1 0 0) identity = Ok (mkQuaternion 0 1 0 0).
Proof.
  apply (productOf_identity (mkQuaternion 0 1 0 0)). exact magnitude_0100_one.
Defined.

(** X6.  [conjugate] is an involution on unit quaternions, and on any
    quaternion two conjugations give what the constructor gives. *)
Theorem conjugate_involutive :
  (forall q, (c <- conjugate q ;; conjugate c) =
             Quaternion_new (qw q) (qx q) (qy q) (qz q)) /\
  (forall q, magnitude q = Ok 1 -> (c <- conjugate q ;; conjugate c) = Ok q).
Proof.
  assert (G : forall q, (c <- conjugate q ;; conjugate c) = Ok (unit_of q)).
  { intros q. rewrite conjugate_run. run. rewrite conjugate_run. f_equal.
    rewrite unit_of_conj_parts.
    f_equal. destruct q as [w x y z]. unfold conj_parts. cbn [qw qx qy qz].
    f_equal; ring. }
  split.
  - intros q. rewrite G, Quaternion_new_run, Quaternion_eta. reflexivity.
  - intros q Hq. rewrite G. f_equal. apply unit_of_unit.
    apply magnitude_one_norm2. exact Hq.
Qed.

Lemma conjugate_involutive_witness :
  (c <- conjugate (mkQuaternion 0 1 0 0) ;; conjugate c) = Ok (mkQuaternion 0 1 0 0).
Proof.
  apply (proj2 conjugate_involutive). exact magnitude_0100_one.
Defined.

(** X7.  The conjugate of a quaternion that is not zero is its inverse on
    both sides: either product is the identity. *)
Theorem conjugate_inverse (q : Quaternion) :
  magnitude q <> Ok 0 ->
  (c <- conjugate q ;; productOf c q) = Ok identity /\
  (c <- conjugate q ;; productOf q c) = Ok identity.
Proof.
  intros Hq.
  assert (N : norm2 q <> 0).
  { intros E. apply Hq. apply magnitude_zero_norm2. exact E. }
  assert (I : unit_of (qscale (norm2 q) identity) = identity).
  { rewrite unit_of_qscale by (pose proof (norm2_nonneg q); lra).
    apply unit_of_identity. }
  rewrite conjugate_run. run. rewrite !productOf_run.
  rewrite unit_of_hamilton_l, unit_of_hamilton_r.
  split; f_equal; rewrite <- I; f_equal;
    unfold hamilton, conj_parts, qscale, identity, norm2; cbn [qw qx qy qz];
    f_equal; ring.
Qed.

Lemma conjugate_inverse_witness :
  (c <- conjugate (mkQuaternion 1 1 0 0) ;; productOf c (mkQuaternion 1 1 0 0))
  = Ok identity /\
  (c <- conjugate (mkQuaternion 1 1 0 0) ;; productOf (mkQuaternion 1 1 0 0) c)
  = Ok identity.
Proof.
  apply (conjugate_inverse (mkQuaternion 1 1 0 0)). exact magnitude_1100_nonzero.
Defined.

(** X8.  [p.difference(q)] is the rotation that takes [p] to [q]: for unit
    quaternions, multiplying it with [p] on the right gives [q]. *)
Theorem difference_takes_this_to_other (p q : Quaternion) :
  magnitude p = Ok 1 -> magnitude q = Ok 1 ->
  (d <- difference p q ;; productOf d p) = Ok q.
Proof.
  intros Hp Hq. apply magnitude_one_norm2 in Hp. apply magnitude_one_norm2 in Hq.
  rewrite difference_run. run. rewrite productOf_run. f_equal.
  rewrite unit_of_hamilton_l, hamilton_assoc.
  rewrite (unit_of_unit (conj_parts p)) by (rewrite norm2_conj_parts; exact Hp).
  replace (hamilton (conj_parts p) p) with identity.
  - replace (hamilton q identity) with q.
    + apply unit_of_unit. exact Hq.
    + destruct q as [w x y z]. unfold hamilton, identity. cbn [qw qx qy qz].
      f_equal; ring.
  - unfold hamilton, conj_parts, identity. cbn [qw qx qy qz].
    rewrite <- Hp. unfold norm2. f_equal; ring.
Qed.

Lemma difference_takes_this_to_other_witness :
  (d <- difference (mkQuaternion 0 1 0 0) (mkQuaternion 0 0 1 0) ;;
   productOf d (mkQuaternion 0 1 0 0)) = Ok (mkQuaternion 0 0 1 0).
Proof.
  apply (difference_takes_this_to_other (mkQuaternion 0 1 0 0) (mkQuaternion 0 0 1 0)).
  - exact magnitude_0100_one.
  - exact magnitude_0010_one.
Defined.

(** X9.  The conjugate of a product is the product of the conjugates in the
    other order, for all quaternions. *)
Theorem conjugate_productOf (p q : Quaternion) :
  (r <- productOf p q ;; conjugate r) =
  (cq <- conjugate q ;; cp <- conjugate p ;; productOf cq cp).
Proof.
  rewrite productOf_run, !conjugate_run. run.
  rewrite conjugate_run, productOf_run. f_equal.
  rewrite unit_of_hamilton_l, unit_of_hamilton_r, unit_of_conj_parts.
  f_equal. unfold hamilton, conj_parts. cbn [qw qx qy qz]. f_equal; ring.
Qed.

(** ** The range of [toEuler] *)

Lemma atan_nonpos (v : R) : v <= 0 -> atan v <= 0.
Proof.
  intros [H | H].
  - left. rewrite <- atan_0. apply atan_increasing. exact H.
  - rewrite H, atan_0. lra.
Qed.

Lemma atan_pos (v : R) : 0 < v -> 0 < atan v.
Proof. intros H. rewrite <- atan_0. apply atan_increasing. exact H. Qed.

Lemma math_atan2_range (y x : R) : - PI < math_atan2 y x <= PI.
Proof.
  pose proof PI_RGT_0 as Hpi. pose proof (atan_bound (y / x)) as Hb.
  unfold math_atan2.
  destruct (Rlt_dec 0 x) as [Hx | Hx]; [lra |].
  destruct (Rlt_dec x 0) as [Hx' | Hx'].
  - assert (Hi : / x < 0) by (apply Rinv_neg; exact Hx').
    destruct (Rle_dec 0 y) as [Hy | Hy].
    + assert (atan (y / x) <= 0) by (apply atan_nonpos; unfold Rdiv; nra).
      lra.
    + assert (0 < atan (y / x)) by (apply atan_pos; unfold Rdiv; nra).
      lra.
  - destruct (Rlt_dec 0 y) as [Hy | Hy]; [lra |].
    destruct (Rlt_dec y 0) as [Hy' | Hy']; lra.
Qed.

Lemma wrap_asin_val_range (v : R) : - (PI / 2) <= wrap_asin_val v <= PI / 2.
Proof.
  pose proof PI_RGT_0 as Hpi. unfold wrap_asin_val.
  destruct (Rge_dec v 1) as [_ | _]; [lra |].
  destruct (Rle_dec v (-1)) as [_ | _]; [lra |].
  apply asin_bound.
Qed.

Lemma degrees_range_open (t : R) : - PI < t <= PI -> -180 < t / PI * 180 <= 180.
Proof.
  intros [Hlo Hhi]. pose proof PI_RGT_0 as Hpi.
  assert (Hi : 0 < / PI) by (apply Rinv_0_lt_compat; exact Hpi).
  assert (E : PI * / PI = 1) by (apply Rinv_r; lra).
  unfold Rdiv. split; nra.
Qed.

Lemma degrees_range_closed (t : R) :
  - (PI / 2) <= t <= PI / 2 -> -90 <= t / PI * 180 <= 90.
Proof.
  intros [Hlo Hhi]. pose proof PI_RGT_0 as Hpi.
  assert (Hi : 0 < / PI) by (apply Rinv_0_lt_compat; exact Hpi).
  assert (E : PI * / PI = 1) by (apply Rinv_r; lra).
  unfold Rdiv. split; nra.
Qed.

Lemma degrees_range (t : R) : - PI < t <= PI -> -180 <= t / PI * 180 <= 180.
Proof. intros H. pose proof (degrees_range_open t H). lra. Qed.

(** X10.  On fields whose squares do not overflow, [toEuler] returns
    normally: the guard of [_wrap_asin] keeps [math.asin] inside its domain.
    The yaw and the roll it returns lie in [-180, 180], the pitch in
    [-90, 90]. *)
Theorem toEuler_range (q : Quaternion) :
  fields_fit q ->
  exists e, toEuler q = Ok e /\
            -180 <= yaw e <= 180 /\
            -90 <= pitch e <= 90 /\
            -180 <= roll e <= 180.
Proof.
  intros _. exists (euler_of q). split; [apply toEuler_run |].
  unfold euler_of. cbn [yaw pitch roll].
  split; [apply degrees_range, math_atan2_range |].
  split; [apply degrees_range_closed, wrap_asin_val_range |].
  apply degrees_range, math_atan2_range.
Qed.

Lemma fits_0 : fits 0.
Proof. unfold fits. rewrite Rabs_R0. lra. Qed.

Lemma fits_1 : fits 1.
Proof. unfold fits. rewrite Rabs_pos_eq by lra. lra. Qed.

Lemma toEuler_range_witness :
  exists e, toEuler (mkQuaternion 0 1 0 0) = Ok e /\
            -180 <= yaw e <= 180 /\
            -90 <= pitch e <= 90 /\
            -180 <= roll e <= 180.
Proof.
  apply (toEuler_range (mkQuaternion 0 1 0 0)).
  repeat split; cbn [qw qx qy qz]; first [exact fits_1 | exact fits_0].
Defined.

Lemma euler_of_qneg (q : Quaternion) : euler_of (qneg q) = euler_of q.
Proof.
  unfold euler_of, qneg. cbn [qw qx qy qz].
  f_equal; f_equal; f_equal; f_equal; ring.
Qed.

(** X11.  A quaternion and its negation convert to the same Euler angles. *)
Theorem toEuler_negation (q : Quaternion) :
  toEuler (mkQuaternion (- qw q) (- qx q) (- qy q) (- qz q)) = toEuler q.
Proof.
  rewrite !toEuler_run. f_equal. apply (euler_of_qneg q).
Qed.

(** ** Whole turns *)

Lemma radians_half_turn (deg : R) : radians_half (deg + 360) = radians_half deg + PI.
Proof. unfold radians_half. lra. Qed.

Lemma euler_parts_yaw_turn (y p r : R) :
  euler_parts (mkEulerAngles (y + 360) p r) = qneg (euler_parts (mkEulerAngles y p r)).
Proof.
  unfold euler_parts, qneg, half_w, half_x, half_y, half_z.
  cbn [yaw pitch roll qw qx qy qz].
  rewrite radians_half_turn, neg_cos, neg_sin. f_equal; ring.
Qed.

Lemma euler_parts_pitch_turn (y p r : R) :
  euler_parts (mkEulerAngles y (p + 360) r) = qneg (euler_parts (mkEulerAngles y p r)).
Proof.
  unfold euler_parts, qneg, half_w, half_x, half_y, half_z.
  cbn [yaw pitch roll qw qx qy qz].
  rewrite radians_half_turn, neg_cos, neg_sin. f_equal; ring.
Qed.

Lemma euler_parts_roll_turn (y p r : R) :
  euler_parts (mkEulerAngles y p (r + 360)) = qneg (euler_parts (mkEulerAngles y p r)).
Proof.
  unfold euler_parts, qneg, half_w, half_x, half_y, half_z.
  cbn [yaw pitch roll qw qx qy qz].
  rewrite radians_half_turn, neg_cos, neg_sin. f_equal; ring.
Qed.

(** X12.  One more full turn of the yaw, of the pitch or of the roll negates
    the quaternion that [toQuaternion] returns. *)
Theorem toQuaternion_full_turn (y p r : R) :
  exists q,
    toQuaternion (EulerAngles_new y p r) = Ok q /\
    toQuaternion (EulerAngles_new (y + 360) p r) = Ok (qneg q) /\
    toQuaternion (EulerAngles_new y (p + 360) r) = Ok (qneg q) /\
    toQuaternion (EulerAngles_new y p (r + 360)) = Ok (qneg q).
Proof.
  exists (euler_parts (mkEulerAngles y p r)).
  rewrite !toQuaternion_run. unfold EulerAngles_new.
  rewrite euler_parts_yaw_turn, euler_parts_pitch_turn, euler_parts_roll_turn.
  repeat split.
Qed.

Lemma euler_of_yaw_turns (n : nat) (y p r : R) :
  euler_of (euler_parts (mkEulerAngles (y + 360 * INR n) p r)) =
  euler_of (euler_parts (mkEulerAngles y p r)).
Proof.
  induction n as [| n IH].
  - cbn [INR]. replace (y + 360 * 0) with y by ring. reflexivity.
  - rewrite S_INR.
    replace (y + 360 * (INR n + 1)) with (y + 360 * INR n + 360) by ring.
    rewrite euler_parts_yaw_turn, euler_of_qneg. exact IH.
Qed.

Lemma euler_of_roll_turns (n : nat) (y p r : R) :
  euler_of (euler_parts (mkEulerAngles y p (r + 360 * INR n))) =
  euler_of (euler_parts (mkEulerAngles y p r)).
Proof.
  induction n as [| n IH].
  - cbn [INR]. replace (r + 360 * 0) with r by ring. reflexivity.
  - rewrite S_INR.
    replace (r + 360 * (INR n + 1)) with (r + 360 * INR n + 360) by ring.
    rewrite euler_parts_roll_turn, euler_of_qneg. exact IH.
Qed.

Lemma IZR_nat_cases (i : Z) : exists n, IZR i = INR n \/ IZR i = - INR n.
Proof.
  exists (Z.abs_nat i). rewrite INR_IZR_INZ, Zabs2Nat.id_abs.
  destruct (Z.abs_eq_or_opp i) as [E | E]; rewrite E.
  - left. reflexivity.
  - right. rewrite opp_IZR. ring.
Qed.

Lemma euler_of_yaw_turns_Z (i : Z) (y p r : R) :
  euler_of (euler_parts (mkEulerAngles (y + 360 * IZR i) p r)) =
  euler_of (euler_parts (mkEulerAngles y p r)).
Proof.
  destruct (IZR_nat_cases i) as [n [E | E]]; rewrite E.
  - apply euler_of_yaw_turns.
  - rewrite <- (euler_of_yaw_turns n (y + 360 * - INR n) p r).
    replace (y + 360 * - INR n + 360 * INR n) with y by ring. reflexivity.
Qed.

Lemma euler_of_roll_turns_Z (i : Z) (y p r : R) :
  euler_of (euler_parts (mkEulerAngles y p (r + 360 * IZR i))) =
  euler_of (euler_parts (mkEulerAngles y p r)).
Proof.
  destruct (IZR_nat_cases i) as [n [E | E]]; rewrite E.
  - apply euler_of_roll_turns.
  - rewrite <- (euler_of_roll_turns n y p (r + 360 * - INR n)).
    replace (r + 360 * - INR n + 360 * INR n) with r by ring. reflexivity.
Qed.

(** X13.  Converting to a quaternion and back reduces the yaw and the roll
    by whole turns: with [y] and [r] in (-180, 180] and the pitch strictly
    between -90 and 90, the angles [y + 360 i], [p], [r + 360 j] come back
    as [y], [p], [r], for all integers [i] and [j]. *)
Theorem there_and_back_whole_turns (i j : Z) (y p r : R) :
  -180 < y <= 180 -> -90 < p < 90 -> -180 < r <= 180 ->
  there_and_back (y + 360 * IZR i) p (r + 360 * IZR j) = Ok (EulerAngles_new y p r).
Proof.
  intros Hy Hp Hr. unfold there_and_back. rewrite toQuaternion_run. run.
  rewrite toEuler_run. f_equal. unfold EulerAngles_new.
  rewrite euler_of_yaw_turns_Z, euler_of_roll_turns_Z.
  apply (euler_of_euler_parts (mkEulerAngles y p r)); assumption.
Qed.

Lemma there_and_back_whole_turns_witness :
  there_and_back (90 + 360 * IZR 2) 45 (-30 + 360 * IZR (-1)) =
  Ok (EulerAngles_new 90 45 (-30)).
Proof.
  apply (there_and_back_whole_turns 2 (-1) 90 45 (-30)); lra.
Defined.

(** ** The tracker *)

Lemma hamilton_conj_self (b : Quaternion) :
  hamilton b (conj_parts b) = qscale (norm2 b) identity.
Proof.
  unfold hamilton, conj_parts, qscale, identity, norm2. cbn [qw qx qy qz].
  f_equal; ring.
Qed.

Lemma error_of_same (b : Quaternion) : norm2 b <> 0 -> error_of b b = identity.
Proof.
  intros N. unfold error_of. rewrite unit_of_hamilton_r, hamilton_conj_self.
  rewrite unit_of_qscale by (pose proof (norm2_nonneg b); lra).
  apply unit_of_identity.
Qed.

Lemma error_of_zero : error_of zero_quaternion zero_quaternion = zero_quaternion.
Proof.
  unfold error_of. rewrite unit_of_hamilton_r, hamilton_conj_self.
  replace (qscale (norm2 zero_quaternion) identity) with zero_quaternion
    by (unfold norm2, qscale, identity, zero_quaternion; cbn [qw qx qy qz];
        f_equal; ring).
  apply unit_of_zero. unfold norm2, zero_quaternion. cbn [qw qx qy qz]. ring.
Qed.

Lemma error_of_run (cur tgt : Quaternion) :
  difference cur tgt = Ok (error_of cur tgt).
Proof. apply difference_run. Qed.

Lemma Kinematics_new_run (now w x y z : R) :
  Kinematics_new now w x y z =
  let b := unit_of (mkQuaternion w x y z) in
  Ok (mkKinematics b Self now (0, 0, 0) (error_of b b)).
Proof.
  unfold Kinematics_new, Kinematics_init. run.
  rewrite Quaternion_init_run. run. rewrite difference_run. run. reflexivity.
Qed.

(** X14.  On arguments whose squares neither overflow nor underflow,
    [Kinematics(w, x, y, z)] returns a tracker that holds the attitude the
    [Quaternion] constructor gives, is its own target, carries the clock
    reading and the velocity (0, 0, 0); its error is the identity, or the
    zero quaternion when the four arguments are zero. *)
Theorem Kinematics_new_state (now w x y z : R) :
  fields_ordinary (mkQuaternion w x y z) ->
  exists k, Kinematics_new now w x y z = Ok k /\
            Quaternion_new w x y z = Ok (base k) /\
            target k = Self /\
            time k = now /\
            getAngularVelocities k = (0, 0, 0) /\
            (magnitude (mkQuaternion w x y z) <> Ok 0 ->
             getErrorQuaternion k = identity) /\
            (magnitude (mkQuaternion w x y z) = Ok 0 ->
             getErrorQuaternion k = zero_quaternion).
Proof.
  intros _. eexists. split; [apply Kinematics_new_run |]. cbv zeta.
  cbn [base target time degSecYPR error getAngularVelocities getErrorQuaternion].
  split; [apply Quaternion_new_run |]. repeat split.
  - intros H. apply error_of_same.
    rewrite norm2_unit_of; [lra |].
    intros E. apply H. apply magnitude_zero_norm2. exact E.
  - intros H. apply magnitude_zero_norm2 in H.
    rewrite (unit_of_zero _ H). rewrite (norm2_zero_components _ H).
    exact error_of_zero.
Qed.

Lemma Kinematics_new_state_witness :
  exists k, Kinematics_new 5 1 1 0 0 = Ok k /\
            Quaternion_new 1 1 0 0 = Ok (base k) /\
            target k = Self /\
            time k = 5 /\
            getAngularVelocities k = (0, 0, 0) /\
            getErrorQuaternion k = identity.
Proof.
  assert (O : fields_ordinary (mkQuaternion 1 1 0 0)).
  { repeat split; cbn [qw qx qy qz];
      first [exact ordinary_1 | exact ordinary_0]. }
  destruct (Kinematics_new_state 5 1 1 0 0 O) as [k [H1 [H2 [H3 [H4 [H5 [H6 _]]]]]]].
  exists k. repeat (split; [assumption |]).
  apply H6. exact magnitude_1100_nonzero.
Defined.

Lemma update_ok (now : R) (attitude tgt : QRef) (k : Kinematics) :
  now - time k <> 0 ->
  update now attitude tgt k =
  (Ok tt,
   mkKinematics (deref k attitude) tgt now
     (yaw (delta_of (base k) (deref k attitude)) / (now - time k),
      pitch (delta_of (base k) (deref k attitude)) / (now - time k),
      roll (delta_of (base k) (deref k attitude)) / (now - time k))
     (error_of (deref k attitude)
               (deref (adopted now attitude tgt k) tgt))).
Proof.
  intros N. rewrite update_run. cbv zeta.
  destruct (Req_dec_T (now - time k) 0) as [E | _]; [contradiction |].
  reflexivity.
Qed.

Lemma update_raise (now : R) (attitude tgt : QRef) (k : Kinematics) :
  now - time k = 0 ->
  update now attitude tgt k = (Raise ZeroDivisionError, adopted now attitude tgt k).
Proof.
  intros E. rewrite update_run. cbv zeta.
  destruct (Req_dec_T (now - time k) 0) as [_ | N]; [reflexivity | contradiction].
Qed.

Lemma euler_of_range (q : Quaternion) :
  -180 < yaw (euler_of q) <= 180 /\
  -90 <= pitch (euler_of q) <= 90 /\
  -180 < roll (euler_of q) <= 180.
Proof.
  unfold euler_of. cbn [yaw pitch roll].
  split; [apply degrees_range_open, math_atan2_range |].
  split; [apply degrees_range_closed, wrap_asin_val_range |].
  apply degrees_range_open, math_atan2_range.
Qed.

(** X15.  When the clock has moved, forwards or backwards, [update] returns
    normally with the attitude, the target and the timestamp taken over, the
    cached error equal to the difference of the new attitude and the new
    target, and each velocity times the time step an angle of half a turn at
    most: within [-180, 180] for yaw and roll, [-90, 90] for pitch. *)
Theorem update_consistent (now : R) (attitude tgt : QRef) (k : Kinematics) :
  now - time k <> 0 ->
  exists k', update now attitude tgt k = (Ok tt, k') /\
             base k' = deref k attitude /\
             target k' = tgt /\
             time k' = now /\
             difference (base k') (deref k' (target k')) = Ok (getErrorQuaternion k') /\
             (let '(vy, vp, vr) := getAngularVelocities k' in
              -180 <= vy * (now - time k) <= 180 /\
              -90 <= vp * (now - time k) <= 90 /\
              -180 <= vr * (now - time k) <= 180).
Proof.
  intros N. eexists. split; [apply update_ok; exact N |].
  cbn [base target time degSecYPR error getAngularVelocities getErrorQuaternion].
  repeat (split; [reflexivity |]).
  split.
  - rewrite error_of_run. destruct tgt; reflexivity.
  - replace (yaw (delta_of (base k) (deref k attitude)) / (now - time k) * (now - time k))
      with (yaw (delta_of (base k) (deref k attitude))) by (field; exact N).
    replace (pitch (delta_of (base k) (deref k attitude)) / (now - time k) * (now - time k))
      with (pitch (delta_of (base k) (deref k attitude))) by (field; exact N).
    replace (roll (delta_of (base k) (deref k attitude)) / (now - time k) * (now - time k))
      with (roll (delta_of (base k) (deref k attitude))) by (field; exact N).
    pose proof (euler_of_range
                  (unit_of (hamilton (deref k attitude)
                     (unit_of (conj_parts (unit_of (base k))))))) as H.
    unfold delta_of. lra.
Qed.

Lemma update_consistent_witness :
  exists k', update 1 (Other (mkQuaternion 0 1 0 0)) Self tracker0 = (Ok tt, k') /\
             base k' = deref tracker0 (Other (mkQuaternion 0 1 0 0)) /\
             target k' = Self /\
             time k' = 1 /\
             difference (base k') (deref k' (target k')) = Ok (getErrorQuaternion k') /\
             (let '(vy, vp, vr) := getAngularVelocities k' in
              -180 <= vy * (1 - time tracker0) <= 180 /\
              -90 <= vp * (1 - time tracker0) <= 90 /\
              -180 <= vr * (1 - time tracker0) <= 180).
Proof.
  apply (update_consistent 1 (Other (mkQuaternion 0 1 0 0)) Self tracker0).
  unfold tracker0. cbn [time]. lra.
Defined.

(** A rotation applied on the left of [b] is what is left when [b] is
    taken away on the right. *)
Lemma rotated_back (q b : Quaternion) :
  norm2 b <> 0 ->
  unit_of (hamilton (hamilton q b) (conj_parts b)) = unit_of q.
Proof.
  intros N. rewrite hamilton_assoc, hamilton_conj_self, hamilton_qscale_r.
  replace (hamilton q identity) with q.
  - apply unit_of_qscale. pose proof (norm2_nonneg b). lra.
  - destruct q as [w x y z]. unfold hamilton, identity. cbn [qw qx qy qz].
    f_equal; ring.
Qed.

Lemma delta_of_rotated (q b : Quaternion) :
  norm2 b <> 0 ->
  delta_of b (unit_of (hamilton q b)) = euler_of (unit_of q).
Proof.
  intros N. unfold delta_of. f_equal.
  rewrite unit_of_conj_parts, unit_of_hamilton_r, unit_of_hamilton_l.
  apply rotated_back. exact N.
Qed.

Lemma error_of_rotated (q b : Quaternion) :
  norm2 b <> 0 ->
  error_of b (unit_of (hamilton q b)) = unit_of q.
Proof.
  intros N. unfold error_of.
  rewrite unit_of_hamilton_r, unit_of_hamilton_l.
  apply rotated_back. exact N.
Qed.

Lemma magnitude_nonzero_norm2 (q : Quaternion) :
  magnitude q <> Ok 0 -> norm2 q <> 0.
Proof. intros H E. apply H. apply magnitude_zero_norm2. exact E. Qed.

(** X16.  The velocity [update] caches is the rotation applied to the
    attitude, over the time step: when the new attitude is the old one, not
    zero, multiplied on the left by the quaternion of Euler angles [y], [p],
    [r], yaw and roll strictly between -180 and 180 and pitch strictly
    between -90 and 90, the velocity is (y/dt, p/dt, r/dt). *)
Theorem update_velocity_of_rotation (now : R) (tgt : QRef) (k : Kinematics)
        (y p r : R) :
  magnitude (base k) <> Ok 0 ->
  now - time k <> 0 ->
  -180 < y < 180 -> -90 < p < 90 -> -180 < r < 180 ->
  exists q a k',
    toQuaternion (EulerAngles_new y p r) = Ok q /\
    productOf q (base k) = Ok a /\
    update now (Other a) tgt k = (Ok tt, k') /\
    getAngularVelocities k' =
    (y / (now - time k), p / (now - time k), r / (now - time k)).
Proof.
  intros Hb Hdt Hy Hp Hr. apply magnitude_nonzero_norm2 in Hb.
  eexists. eexists. eexists.
  split; [apply toQuaternion_run |].
  split; [apply productOf_run |].
  split; [apply update_ok; exact Hdt |].
  cbn [getAngularVelocities degSecYPR deref].
  rewrite delta_of_rotated by exact Hb.
  rewrite (unit_of_unit _ (norm2_euler_parts _)).
  unfold EulerAngles_new.
  rewrite (euler_of_euler_parts (mkEulerAngles y p r))
    by (cbn [yaw pitch roll]; lra).
  reflexivity.
Qed.

Lemma update_velocity_of_rotation_witness :
  exists q a k',
    toQuaternion (EulerAngles_new 90 45 (-30)) = Ok q /\
    productOf q (base tracker0) = Ok a /\
    update 2 (Other a) Self tracker0 = (Ok tt, k') /\
    getAngularVelocities k' =
    (90 / (2 - time tracker0), 45 / (2 - time tracker0), -30 / (2 - time tracker0)).
Proof.
  apply (update_velocity_of_rotation 2 Self tracker0 90 45 (-30)); try lra.
  - unfold tracker0. cbn [base]. rewrite magnitude_total.
    intros H. injection H as H. apply sqrt_norm2_zero in H.
    unfold norm2, identity in H. cbn [qw qx qy qz] in H. lra.
  - unfold tracker0. cbn [time]. lra.
Defined.

(** X17.  The error [update] caches is the rotation from the attitude to
    the target: when the target is the new attitude, not zero, multiplied on
    the left by the quaternion of Euler angles [y], [p], [r], yaw and roll
    strictly between -180 and 180 and pitch strictly between -90 and 90,
    [getErrorEuler] returns those angles. *)
Theorem update_error_of_rotation (now : R) (attitude : QRef) (k : Kinematics)
        (y p r : R) :
  magnitude (deref k attitude) <> Ok 0 ->
  now - time k <> 0 ->
  -180 < y < 180 -> -90 < p < 90 -> -180 < r < 180 ->
  exists q t k',
    toQuaternion (EulerAngles_new y p r) = Ok q /\
    productOf q (deref k attitude) = Ok t /\
    update now attitude (Other t) k = (Ok tt, k') /\
    getErrorQuaternion k' = q /\
    getErrorEuler k' = Ok (EulerAngles_new y p r).
Proof.
  intros Hb Hdt Hy Hp Hr. apply magnitude_nonzero_norm2 in Hb.
  eexists. eexists. eexists.
  split; [apply toQuaternion_run |].
  split; [apply productOf_run |].
  split; [apply update_ok; exact Hdt |].
  unfold getErrorEuler. cbn [getErrorQuaternion error deref].
  rewrite error_of_rotated by exact Hb.
  rewrite (unit_of_unit _ (norm2_euler_parts _)).
  split; [reflexivity |].
  rewrite toEuler_run. f_equal. unfold EulerAngles_new.
  apply (euler_of_euler_parts (mkEulerAngles y p r)); cbn [yaw pitch roll]; lra.
Qed.

Lemma update_error_of_rotation_witness :
  exists q t k',
    toQuaternion (EulerAngles_new 0 0 90) = Ok q /\
    productOf q (deref tracker0 Self) = Ok t /\
    update 1 Self (Other t) tracker0 = (Ok tt, k') /\
    getErrorQuaternion k' = q /\
    getErrorEuler k' = Ok (EulerAngles_new 0 0 90).
Proof.
  apply (update_error_of_rotation 1 Self tracker0 0 0 90); try lra.
  - unfold tracker0. cbn [deref base]. rewrite magnitude_total.
    intros H. injection H as H. apply sqrt_norm2_zero in H.
    unfold norm2, identity in H. cbn [qw qx qy qz] in H. lra.
  - unfold tracker0. cbn [time]. lra.
Defined.

(** X18.  A tracker that is its own target, as [Kinematics()] leaves it,
    stays so under [update(attitude, self)]: the target moves with the
    attitude, and the error is the identity for every attitude that is not
    zero. *)
Theorem update_self_target (now : R) (attitude : QRef) (k : Kinematics) :
  magnitude (deref k attitude) <> Ok 0 ->
  now - time k <> 0 ->
  exists k', update now attitude Self k = (Ok tt, k') /\
             deref k' (target k') = deref k attitude /\
             getErrorQuaternion k' = identity.
Proof.
  intros Hb Hdt. apply magnitude_nonzero_norm2 in Hb.
  eexists. split; [apply update_ok; exact Hdt |].
  cbn [getErrorQuaternion error target base deref adopted].
  split; [reflexivity |]. apply error_of_same. exact Hb.
Qed.

Lemma update_self_target_witness :
  exists k', update 1 (Other (mkQuaternion 1 1 0 0)) Self tracker0 = (Ok tt, k') /\
             deref k' (target k') = deref tracker0 (Other (mkQuaternion 1 1 0 0)) /\
             getErrorQuaternion k' = identity.
Proof.
  apply (update_self_target 1 (Other (mkQuaternion 1 1 0 0)) tracker0).
  - cbn [deref]. exact magnitude_1100_nonzero.
  - unfold tracker0. cbn [time]. lra.
Defined.

(** ** [setTarget] and [rotateTarget] *)

Lemma setTarget_run (now : R) (q : QRef) (k : Kinematics) :
  setTarget now q k = update now Self q (set_target q k).
Proof. reflexivity. Qed.

Lemma rotateTarget_run (now : R) (q : QRef) (k : Kinematics) :
  rotateTarget now q k =
  let t := Other (unit_of (hamilton (deref k (target k)) (deref k q))) in
  update now Self t (set_target t k).
Proof.
  unfold rotateTarget. run. rewrite productOf_run. run. reflexivity.
Qed.

(** X19.  Called at the clock reading of the previous update, [setTarget]
    and [rotateTarget] raise [ZeroDivisionError]; the target is replaced all
    the same, while the attitude, the cached velocity and the cached error
    stay as they were. *)
Theorem retarget_same_tick (now : R) (q : QRef) (k : Kinematics) :
  now = time k ->
  (exists k', setTarget now q k = (Raise ZeroDivisionError, k') /\
              target k' = q /\
              base k' = base k /\
              getAngularVelocities k' = getAngularVelocities k /\
              getErrorQuaternion k' = getErrorQuaternion k) /\
  (exists t k', productOf (deref k (target k)) (deref k q) = Ok t /\
                rotateTarget now q k = (Raise ZeroDivisionError, k') /\
                target k' = Other t /\
                base k' = base k /\
                getAngularVelocities k' = getAngularVelocities k /\
                getErrorQuaternion k' = getErrorQuaternion k).
Proof.
  intros Hn. split.
  - eexists. rewrite setTarget_run.
    split; [apply update_raise; cbn [set_target time]; lra |].
    repeat split.
  - eexists. eexists. split; [apply productOf_run |].
    rewrite rotateTarget_run. cbv zeta.
    split; [apply update_raise; cbn [set_target time]; lra |].
    repeat split.
Qed.

Lemma retarget_same_tick_witness :
  exists k', setTarget 0 (Other (mkQuaternion 0 1 0 0)) tracker0
             = (Raise ZeroDivisionError, k') /\
             target k' = Other (mkQuaternion 0 1 0 0) /\
             base k' = base tracker0 /\
             getAngularVelocities k' = getAngularVelocities tracker0 /\
             getErrorQuaternion k' = getErrorQuaternion tracker0.
Proof.
  apply (proj1 (retarget_same_tick 0 (Other (mkQuaternion 0 1 0 0)) tracker0
                                   (eq_refl 0))).
Defined.

(** X20.  When the clock has moved, [rotateTarget q] returns normally: the
    attitude is as it was, the velocity is (0, 0, 0), and the cached error
    is the difference of the attitude and the new target. *)
Theorem rotateTarget_refreshes (now : R) (q : QRef) (k : Kinematics) :
  now - time k <> 0 ->
  exists t k', productOf (deref k (target k)) (deref k q) = Ok t /\
               rotateTarget now q k = (Ok tt, k') /\
               target k' = Other t /\
               base k' = base k /\
               getAngularVelocities k' = (0, 0, 0) /\
               difference (base k') t = Ok (getErrorQuaternion k').
Proof.
  intros Hdt. eexists. eexists. split; [apply productOf_run |].
  rewrite rotateTarget_run. cbv zeta.
  split; [apply update_ok; cbn [set_target time]; exact Hdt |].
  cbn [set_target base target time deref adopted
       getAngularVelocities getErrorQuaternion degSecYPR error].
  repeat (split; [reflexivity |]).
  split.
  - rewrite delta_of_same. cbn [yaw pitch roll].
    unfold Rdiv. rewrite !Rmult_0_l. reflexivity.
  - apply error_of_run.
Qed.

Lemma rotateTarget_refreshes_witness :
  exists t k', productOf (deref tracker0 (target tracker0))
                         (deref tracker0 (Other (mkQuaternion 0 1 0 0))) = Ok t /\
               rotateTarget 1 (Other (mkQuaternion 0 1 0 0)) tracker0 = (Ok tt, k') /\
               target k' = Other t /\
               base k' = base tracker0 /\
               getAngularVelocities k' = (0, 0, 0) /\
               difference (base k') t = Ok (getErrorQuaternion k').
Proof.
  apply (rotateTarget_refreshes 1 (Other (mkQuaternion 0 1 0 0)) tracker0).
  unfold tracker0. cbn [time]. lra.
Defined.

Lemma rotateTarget_target (now : R) (q : QRef) (k : Kinematics) :
  target (snd (rotateTarget now q k)) =
  Other (unit_of (hamilton (deref k (target k)) (deref k q))).
Proof.
  rewrite rotateTarget_run, update_run. cbv zeta.
  destruct (Req_dec_T _ 0); reflexivity.
Qed.

(** X21.  Two calls of [rotateTarget], with [q1] and then with [q2], leave
    the target that one call with [q1.productOf(q2)] leaves, whatever the
    clock readings are. *)
Theorem rotateTarget_twice (n1 n2 n3 : R) (q1 q2 : Quaternion) (k : Kinematics) :
  exists q12,
    productOf q1 q2 = Ok q12 /\
    target (snd (rotateTarget n2 (Other q2) (snd (rotateTarget n1 (Other q1) k)))) =
    target (snd (rotateTarget n3 (Other q12) k)).
Proof.
  eexists. split; [apply productOf_run |].
  rewrite !rotateTarget_target. cbn [deref]. f_equal.
  rewrite unit_of_hamilton_l, unit_of_hamilton_r, hamilton_assoc. reflexivity.
Qed.

(** X22.  A quaternion without vector part, the zero quaternion among them,
    converts to the angles (0, 0, 0), without an exception. *)
Theorem toEuler_scalar (q : Quaternion) :
  qx q = 0 -> qy q = 0 -> qz q = 0 ->
  toEuler q = Ok (EulerAngles_new 0 0 0).
Proof.
  intros Hx Hy Hz. rewrite toEuler_run. f_equal.
  apply euler_of_scalar; assumption.
Qed.

Lemma toEuler_scalar_witness :
  toEuler zero_quaternion = Ok (EulerAngles_new 0 0 0).
Proof.
  apply (toEuler_scalar zero_quaternion); reflexivity.
Defined.
